(** * glob-diff: snapshot validation, snapshot builder and differ

    A shallow embedding of [src/glob-diff.ts].

    - JavaScript numbers are IEEE 754 binary64 values: [float], with
      [===] on numbers modelled by [PrimFloat.eqb].
    - A snapshot object ([GlobDiffSnapshot]) is a finite map from file
      path to file snapshot: [gmap string GlobDiffFileSnapshot].
    - Values whose shape the program checks at run time (the [any]
      argument of [isValidGlobDiffSnapshot]) are modelled by [value].
    - Asynchronous code that touches the file system is written in a
      state and error monad [IO] over a model of the file system, which
      also records the trace of file-system calls. *)

From Stdlib Require Import Ascii Floats.
From stdpp Require Import gmap strings list fin_maps pretty.

Set Warnings "-register-all,-clear-no-such-hyp".

(** ** Run-time values *)

(** The JavaScript values the program can be handed where its types say
    [any]: what [JSON.parse] returns, or what an untyped caller passes as
    [options.snapshot]. Objects list their own enumerable properties in
    enumeration order. *)
Inductive value : Type :=
| VUndefined
| VNull
| VBool (b : bool)
| VNumber (x : float)
| VString (s : string)
| VFunction
| VArray (elems : list value)
| VObject (props : list (string * value)).

(** [typeof v] *)
Definition typeof (v : value) : string :=
  match v with
  | VUndefined => "undefined"
  | VNull => "object"
  | VBool _ => "boolean"
  | VNumber _ => "number"
  | VString _ => "string"
  | VFunction => "function"
  | VArray _ => "object"
  | VObject _ => "object"
  end.

(** [x === y] on numbers: IEEE equality ([NaN] differs from itself, the
    two zeros are equal). *)
Definition number_strict_eq (x y : float) : bool := PrimFloat.eqb x y.

(** Truthiness of a value, as tested by [if (v)], [!v] and [v && ...]. *)
Definition truthy (v : value) : bool :=
  match v with
  | VUndefined | VNull => false
  | VBool b => b
  | VNumber x => negb (number_strict_eq x 0 || negb (number_strict_eq x x))
  | VString s => negb (bool_decide (s = ""))
  | VFunction | VArray _ | VObject _ => true
  end.

(** The elements of an array paired with their index keys ["0"], ["1"], ... *)
Fixpoint indexed_from (i : nat) (elems : list value) : list (string * value) :=
  match elems with
  | [] => []
  | e :: rest => (pretty i, e) :: indexed_from (S i) rest
  end.

(** [Object.entries(v)]: the own enumerable string-keyed properties. *)
Definition Object_entries (v : value) : list (string * value) :=
  match v with
  | VObject props => props
  | VArray elems => indexed_from 0 elems
  | _ => []
  end.

(** Own-property lookup in a property list. *)
Fixpoint own_property (key : string) (props : list (string * value)) : option value :=
  match props with
  | [] => None
  | (k, v) :: rest => if bool_decide (k = key) then Some v else own_property key rest
  end.

(** [key in v], for the two keys the program asks about (["hash"] and
    ["mtimeMs"]): no prototype of a plain object or of an array has a
    property of either name, so only own properties count. *)
Definition has_property (key : string) (v : value) : bool :=
  bool_decide (is_Some (own_property key (Object_entries v))).

(** [v[key]] (and [v.key]); a missing property reads as [undefined]. *)
Definition get_property (v : value) (key : string) : value :=
  default VUndefined (own_property key (Object_entries v)).

(** ** Snapshot shape validation *)

(** [v === null] *)
Definition is_null (v : value) : bool :=
  match v with VNull => true | _ => false end.

(** The condition of the [if] in the loop of [isValidGlobDiffSnapshot]:
    true when the entry makes the validator return [false]. *)
Definition isInvalidEntry (entry : string * value) : bool :=
  let '(filePath, fileSnapshot) := entry in
  bool_decide (typeof (VString filePath) ≠ "string")
  || bool_decide (typeof fileSnapshot ≠ "object")
  || is_null fileSnapshot
  || negb (has_property "hash" fileSnapshot)
  || negb (has_property "mtimeMs" fileSnapshot)
  || bool_decide (typeof (get_property fileSnapshot "hash") ≠ "string")
  || bool_decide (typeof (get_property fileSnapshot "mtimeMs") ≠ "number").

(** [isValidGlobDiffSnapshot(snapshot)]: the loop returns [false] at the
    first offending entry and [true] when there is none. *)
Definition isValidGlobDiffSnapshot (snapshot : value) : bool :=
  if bool_decide (typeof snapshot ≠ "object") || is_null snapshot then false
  else forallb (λ entry, negb (isInvalidEntry entry)) (Object_entries snapshot).

(** ** Typed snapshots *)

Record GlobDiffFileSnapshot : Type := {
  hash : string;
  mtimeMs : float;
}.

Abbreviation GlobDiffSnapshot := (gmap string GlobDiffFileSnapshot).

(** The view of a validated entry at the type [GlobDiffFileSnapshot]:
    its [hash] and [mtimeMs] fields (the program reads no other). *)
Definition asFileSnapshot (fileSnapshot : value) : option GlobDiffFileSnapshot :=
  match get_property fileSnapshot "hash", get_property fileSnapshot "mtimeMs" with
  | VString h, VNumber m => Some {| hash := h; mtimeMs := m |}
  | _, _ => None
  end.

(** The view of a validated value at the type [GlobDiffSnapshot], which
    the type guard [snapshot is GlobDiffSnapshot] licenses. *)
Definition asSnapshot (snapshot : value) : GlobDiffSnapshot :=
  list_to_map (omap (λ entry, pair entry.1 <$> asFileSnapshot entry.2)
                    (Object_entries snapshot)).

(** ** Changes *)

Inductive GlobDiffChangeType : Type := Create | Delete | Update.

Record GlobDiffChange : Type := {
  type : GlobDiffChangeType;
  filePath : string;
}.

Global Instance GlobDiffChangeType_eq_dec : EqDecision GlobDiffChangeType.
Proof. solve_decision. Defined.

Global Instance GlobDiffChange_eq_dec : EqDecision GlobDiffChange.
Proof. solve_decision. Defined.

(** [Object.keys(snapshot)]. The keys are enumerated in the order of
    [map_to_list], which is not the property order of JavaScript; the
    properties below hold of the keys in any order. *)
Definition Object_keys (snapshot : GlobDiffSnapshot) : list string :=
  (map_to_list snapshot).*1.

(** [new Set(keys)] is kept as the list of its elements in iteration
    order (the keys of an object are distinct); [set.has(x)]. *)
Definition Set_has (set : list string) (x : string) : bool :=
  bool_decide (x ∈ set).

(** [a?.hash !== b?.hash], where a missing entry reads as [undefined]. *)
Definition hash_differs (a b : option GlobDiffFileSnapshot) : bool :=
  bool_decide (hash <$> a ≠ hash <$> b).

(** [getGlobDiffChanges(previousSnapshot, nextSnapshot)]: the two [for]
    loops, each pushing onto [changes]. *)
Definition getGlobDiffChanges (previousSnapshot nextSnapshot : GlobDiffSnapshot)
  : list GlobDiffChange :=
  let changes : list GlobDiffChange := [] in
  let previousFilePaths := Object_keys previousSnapshot in
  let nextFilePaths := Object_keys nextSnapshot in
  let changes :=
    foldl (λ changes previousFilePath,
             if negb (Set_has nextFilePaths previousFilePath)
             then changes ++ [{| type := Delete; filePath := previousFilePath |}]
             else changes)
          changes previousFilePaths in
  let changes :=
    foldl (λ changes nextFilePath,
             if negb (Set_has previousFilePaths nextFilePath)
             then changes ++ [{| type := Create; filePath := nextFilePath |}]
             else if hash_differs (previousSnapshot !! nextFilePath)
                                  (nextSnapshot !! nextFilePath)
             then changes ++ [{| type := Update; filePath := nextFilePath |}]
             else changes)
          changes nextFilePaths in
  changes.

(** ** Options and results *)

(** [GlobDiffPatterns]: a glob string or a list of glob strings. *)
Inductive GlobDiffPatterns : Type :=
| PatternString (pattern : string)
| PatternList (patternList : list string).

(** An optional property is [None] when the object does not have it. *)
Module GlobDiffOptions.
Record t : Type := mk {
  alwaysHash : option bool;
  cwd : option string;
  patterns : option GlobDiffPatterns;
  files : option (list string);
  saveSnapshot : option bool;
  snapshot : option value;
  snapshotFilePath : option string;
}.
End GlobDiffOptions.

Module GetGlobDiffSnapshotOptions.
Record t : Type := mk {
  alwaysHash : option bool;
  cwd : option string;
  files : option (list string);
  patterns : option GlobDiffPatterns;
  snapshot : option GlobDiffSnapshot;
}.
End GetGlobDiffSnapshotOptions.

Module GlobDiffResult.
Record t : Type := mk {
  snapshot : GlobDiffSnapshot;
  changes : list GlobDiffChange;
}.
End GlobDiffResult.

Definition defaultGlobDiffSnapshotFileName : string := ".glob-diff.json".

(** Truthiness of an optional boolean, string, pattern or array property. *)
Definition truthy_bool (b : option bool) : bool := default false b.

Definition truthy_string (s : option string) : bool :=
  match s with Some s => negb (bool_decide (s = "")) | None => false end.

Definition truthy_patterns (p : option GlobDiffPatterns) : bool :=
  match p with
  | Some (PatternString s) => negb (bool_decide (s = ""))
  | Some (PatternList _) => true
  | None => false
  end.

(** [patterns || []] *)
Definition patterns_or_empty (p : option GlobDiffPatterns) : GlobDiffPatterns :=
  if truthy_patterns p then default (PatternList []) p else PatternList [].

Definition truthy_files (f : option (list string)) : bool :=
  match f with Some _ => true | None => false end.

(** The first argument of [globDiff]: patterns, or the options object. *)
Definition PatternsOrOptions : Type := GlobDiffPatterns + GlobDiffOptions.t.

(** [isGlobDiffPatterns(x)]: [typeof x === 'string' || Array.isArray(x)]. *)
Definition isGlobDiffPatterns (patternsOrOptions : PatternsOrOptions) : bool :=
  match patternsOrOptions with
  | inl (PatternString _) => true
  | inl (PatternList _) => true
  | inr _ => false
  end.

(** [{ patterns: patterns, ...maybeOptions }]: the properties of
    [maybeOptions] are copied after [patterns], so a [patterns] property
    of [maybeOptions] (which its type forbids) would replace it. *)
Definition spread_after_patterns (patterns : GlobDiffPatterns)
    (maybeOptions : option GlobDiffOptions.t) : GlobDiffOptions.t :=
  match maybeOptions with
  | None =>
      GlobDiffOptions.mk None None (Some patterns) None None None None
  | Some o =>
      GlobDiffOptions.mk
        (GlobDiffOptions.alwaysHash o)
        (GlobDiffOptions.cwd o)
        (match GlobDiffOptions.patterns o with Some p => Some p | None => Some patterns end)
        (GlobDiffOptions.files o)
        (GlobDiffOptions.saveSnapshot o)
        (GlobDiffOptions.snapshot o)
        (GlobDiffOptions.snapshotFilePath o)
  end.

(** ** The file system and the trace of calls to it *)

(** A regular file. [file_read_error] and [file_write_error] name the
    error code ([EACCES], [EIO], ...) with which opening the file for
    reading or writing fails, if it does. *)
Record File : Type := {
  file_content : string;
  file_mtimeMs : float;
  file_read_error : option string;
  file_write_error : option string;
}.

(** The files by absolute path, and the clock that stamps writes. *)
Record World : Type := {
  fileSystem : gmap string File;
  clock : float;
}.

(** What the program throws or rejects with. *)
Inductive Error : Type :=
| ErrorMessage (message : string)
| SyntaxError
| SystemError (code : string) (syscall : string) (path : string).

(** One call that reaches the file system. *)
Inductive Event : Type :=
| EvStat (path : string)
| EvHashFile (path : string)
| EvReadFile (path : string)
| EvWriteFile (path : string) (data : string)
| EvGlobby (patterns : GlobDiffPatterns).

Record State : Type := {
  world : World;
  trace : list Event;
}.

Inductive Outcome (A : Type) : Type :=
| Returned (a : A)
| Thrown (e : Error).
Arguments Returned {A} a.
Arguments Thrown {A} e.

(** Computations that read and write the file system and may throw. *)
Definition IO (A : Type) : Type := State → Outcome A * State.

Global Instance IO_ret : MRet IO := λ A a st, (Returned a, st).

Global Instance IO_bind : MBind IO := λ A B k m st,
  match m st with
  | (Returned a, st') => k a st'
  | (Thrown e, st') => (Thrown e, st')
  end.

Global Instance IO_fmap : FMap IO := λ A B f m st,
  match m st with
  | (Returned a, st') => (Returned (f a), st')
  | (Thrown e, st') => (Thrown e, st')
  end.

Definition throw {A : Type} (e : Error) : IO A := λ st, (Thrown e, st).

(** [promise.catch(handler)] *)
Definition catch {A : Type} (m : IO A) (handler : Error → IO A) : IO A := λ st,
  match m st with
  | (Returned a, st') => (Returned a, st')
  | (Thrown e, st') => handler e st'
  end.

Definition record_event (ev : Event) (st : State) : State :=
  {| world := world st; trace := trace st ++ [ev] |}.

(** [fs.promises.stat(path)], of which the program reads [mtimeMs] only.
    The one failure in this file system is that of a path with nothing
    at it. *)
Definition fs_stat (path : string) : IO float := λ st,
  let st' := record_event (EvStat path) st in
  match fileSystem (world st) !! path with
  | Some file => (Returned (file_mtimeMs file), st')
  | None => (Thrown (SystemError "ENOENT" "stat" path), st')
  end.

(** Opening a file and reading all of it. *)
Definition read_content (w : World) (path : string) : Outcome string :=
  match fileSystem w !! path with
  | Some file =>
      match file_read_error file with
      | Some code => Thrown (SystemError code "open" path)
      | None => Returned (file_content file)
      end
  | None => Thrown (SystemError "ENOENT" "open" path)
  end.

(** [fs.promises.readFile(path, 'utf8')] *)
Definition fs_readFile (path : string) : IO string := λ st,
  (read_content (world st) path, record_event (EvReadFile path) st).

(** [fs.promises.writeFile(path, data)]. In this file system a write
    fails only on a file that refuses it, and then changes nothing; a
    path below a directory that is not there is not told apart. *)
Definition fs_writeFile (path : string) (data : string) : IO unit := λ st,
  let st' := record_event (EvWriteFile path data) st in
  let w := world st in
  match fileSystem w !! path ≫= file_write_error with
  | Some code => (Thrown (SystemError code "open" path), st')
  | None =>
      let file := {| file_content := data;
                     file_mtimeMs := clock w;
                     file_read_error := fileSystem w !! path ≫= file_read_error;
                     file_write_error := None |} in
      (Returned (),
       {| world := {| fileSystem := <[path := file]> (fileSystem w); clock := clock w |};
          trace := trace st' |})
  end.

(** The collaborators of the program that are not part of it. *)
Class Collaborators : Type := {
  (** the MD5 digest of a file's bytes, in hexadecimal ([hasha]) *)
  md5 : string → string;
  (** the absolute paths that [globby(patterns, { absolute: true })] matches *)
  globby_matches : World → GlobDiffPatterns → list string;
  (** [path.resolve(p)], against the working directory of the process *)
  path_resolve : string → string;
  (** [JSON.parse(text)]; [None] when it throws a [SyntaxError] *)
  JSON_parse : string → option value;
  (** [JSON.stringify(snapshot)] *)
  JSON_stringify : GlobDiffSnapshot → string;
}.

Section Program.
Context `{Collaborators}.

(** [hashFile(path, { algorithm: 'md5' })] *)
Definition hashFile (path : string) : IO string := λ st,
  (match read_content (world st) path with
   | Returned content => Returned (md5 content)
   | Thrown e => Thrown e
   end,
   record_event (EvHashFile path) st).

(** [globby(patterns, { absolute: true })] *)
Definition globby (patterns : GlobDiffPatterns) : IO (list string) := λ st,
  (Returned (globby_matches (world st) patterns), record_event (EvGlobby patterns) st).

(** ** The snapshot builder *)

(** The condition under which the previous hash is reused:
    [!options.alwaysHash && previousSnapshot[filePath]?.mtimeMs === fileStats.mtimeMs].
    A missing entry reads as [undefined], which no number equals. *)
Definition reusesPreviousHash (alwaysHash : option bool)
    (previousSnapshot : GlobDiffSnapshot) (filePath : string) (stats_mtimeMs : float) : bool :=
  negb (truthy_bool alwaysHash)
  && match previousSnapshot !! filePath with
     | Some previousEntry => number_strict_eq (mtimeMs previousEntry) stats_mtimeMs
     | None => false
     end.

(** The callback that [getGlobDiffSnapshot] maps over [filePaths]. It
    assigns [snapshot[filePath]] in the object [snapshot] shared by all
    the callbacks, which is threaded through here. *)
Definition snapshotFile (alwaysHash : option bool) (previousSnapshot : GlobDiffSnapshot)
    (filePath : string) (snapshot : GlobDiffSnapshot) : IO GlobDiffSnapshot :=
  stats_mtimeMs ← fs_stat filePath;
  if reusesPreviousHash alwaysHash previousSnapshot filePath stats_mtimeMs
  then
    mret (<[filePath := {| hash := default "" (hash <$> previousSnapshot !! filePath);
                           mtimeMs := stats_mtimeMs |}]> snapshot)
  else
    fileHash ← hashFile filePath;
    mret (<[filePath := {| hash := fileHash; mtimeMs := stats_mtimeMs |}]> snapshot).

(** [await Promise.all(filePaths.map(callback))]. The callbacks only
    read the file system, and write the shared object at their own key;
    they are run here one after the other, in the order of [filePaths],
    and the first failure in that order is the one reported. The program
    starts them all at once: it calls [stat] on every path before any
    [hashFile], and reports the failure that comes first in time. The
    snapshot of a build that returns, and which calls are made for which
    path, are the same in any order. *)
Fixpoint Promise_all (callback : string → GlobDiffSnapshot → IO GlobDiffSnapshot)
    (filePaths : list string) (snapshot : GlobDiffSnapshot) : IO GlobDiffSnapshot :=
  match filePaths with
  | [] => mret snapshot
  | filePath :: rest =>
      snapshot' ← callback filePath snapshot;
      Promise_all callback rest snapshot'
  end.

(** [getGlobDiffSnapshot(options)] *)
Definition getGlobDiffSnapshot (options : GetGlobDiffSnapshotOptions.t)
  : IO GlobDiffSnapshot :=
  let patterns := patterns_or_empty (GetGlobDiffSnapshotOptions.patterns options) in
  filePaths ←
    match GetGlobDiffSnapshotOptions.files options with
    | Some files => mret (map (λ filePath, path_resolve filePath) files)
    | None => globby patterns
    end;
  let snapshot : GlobDiffSnapshot := ∅ in
  let previousSnapshot := default ∅ (GetGlobDiffSnapshotOptions.snapshot options) in
  Promise_all
    (snapshotFile (GetGlobDiffSnapshotOptions.alwaysHash options) previousSnapshot)
    filePaths snapshot.

(** ** Loading the snapshot file *)

(** [loadGlobDiffSnapshot(snapshotFilePath)] *)
Definition loadGlobDiffSnapshot (snapshotFilePath : string) : IO GlobDiffSnapshot :=
  snapshotFileContent ←
    catch (Some <$> fs_readFile snapshotFilePath) (λ _, mret None);
  if negb (truthy_string snapshotFileContent) then mret ∅
  else
    match JSON_parse (default "" snapshotFileContent) with
    | None => throw SyntaxError
    | Some snapshot =>
        if negb (isValidGlobDiffSnapshot snapshot)
        then throw (ErrorMessage "Invalid `glob-diff` snapshot file")
        else mret (asSnapshot snapshot)
    end.

(** ** The operation *)

(** The [options] of [globDiff]: built from the patterns when the first
    argument passes [isGlobDiffPatterns], the first argument otherwise. *)
Definition globDiffOptions (patternsOrOptions : PatternsOrOptions)
    (maybeOptions : option GlobDiffOptions.t) : GlobDiffOptions.t :=
  match patternsOrOptions with
  | inl patterns => spread_after_patterns patterns maybeOptions
  | inr options => options
  end.

(** [globDiff(patternsOrOptions, maybeOptions)] *)
Definition globDiff (patternsOrOptions : PatternsOrOptions)
    (maybeOptions : option GlobDiffOptions.t) : IO GlobDiffResult.t :=
  let options := globDiffOptions patternsOrOptions maybeOptions in
  let snapshotFilePath :=
    path_resolve
      (if truthy_string (GlobDiffOptions.snapshotFilePath options)
       then default "" (GlobDiffOptions.snapshotFilePath options)
       else defaultGlobDiffSnapshotFileName) in
  let supplied := default VUndefined (GlobDiffOptions.snapshot options) in
  if truthy supplied && negb (isValidGlobDiffSnapshot supplied)
  then throw (ErrorMessage "Invalid `glob-diff` snapshot")
  else
    previousSnapshot ←
      (if negb (truthy supplied)
       then loadGlobDiffSnapshot snapshotFilePath
       else mret (asSnapshot supplied));
    if negb (truthy_patterns (GlobDiffOptions.patterns options))
       && negb (truthy_files (GlobDiffOptions.files options))
    then throw (ErrorMessage "Either `patterns` or `files` must be provided")
    else
      snapshot ← getGlobDiffSnapshot
        (GetGlobDiffSnapshotOptions.mk
           (GlobDiffOptions.alwaysHash options)
           (GlobDiffOptions.cwd options)
           (GlobDiffOptions.files options)
           (GlobDiffOptions.patterns options)
           (Some previousSnapshot));
      let changes := getGlobDiffChanges previousSnapshot snapshot in
      _ ← (if bool_decide (GlobDiffOptions.saveSnapshot options ≠ Some false)
           then fs_writeFile snapshotFilePath (JSON_stringify snapshot)
           else mret ());
      mret (GlobDiffResult.mk snapshot changes).

End Program.

(** ** Notions the properties are stated with *)

(** What makes the validator reject an entry, in the words of the
    specification: the value is not an object, is null, lacks [hash] or
    [mtimeMs], or has a [hash] that is not a string or an [mtimeMs] that
    is not a number. *)
Definition rejected_entry (fileSnapshot : value) : Prop :=
  typeof fileSnapshot ≠ "object"
  ∨ fileSnapshot = VNull
  ∨ own_property "hash" (Object_entries fileSnapshot) = None
  ∨ own_property "mtimeMs" (Object_entries fileSnapshot) = None
  ∨ typeof (get_property fileSnapshot "hash") ≠ "string"
  ∨ typeof (get_property fileSnapshot "mtimeMs") ≠ "number".

(** The record the differ is to emit, by its type: a deletion for a path
    of the previous snapshot only, a creation for a path of the next
    snapshot only, an update for a path of both with different hashes. *)
Definition expected_change (previous next : GlobDiffSnapshot) (c : GlobDiffChange) : Prop :=
  match type c with
  | Delete => filePath c ∈ dom previous ∧ filePath c ∉ dom next
  | Create => filePath c ∈ dom next ∧ filePath c ∉ dom previous
  | Update => ∃ a b, previous !! filePath c = Some a ∧ next !! filePath c = Some b
                     ∧ hash a ≠ hash b
  end.

(** What the first loop pushes for a path, and what the second does. *)
Definition pushed_by_first_loop (nextFilePaths : list string) (previousFilePath : string)
  : option GlobDiffChange :=
  if negb (Set_has nextFilePaths previousFilePath)
  then Some {| type := Delete; filePath := previousFilePath |}
  else None.

Definition pushed_by_second_loop (previousSnapshot nextSnapshot : GlobDiffSnapshot)
    (nextFilePath : string) : option GlobDiffChange :=
  if negb (Set_has (Object_keys previousSnapshot) nextFilePath)
  then Some {| type := Create; filePath := nextFilePath |}
  else if hash_differs (previousSnapshot !! nextFilePath) (nextSnapshot !! nextFilePath)
  then Some {| type := Update; filePath := nextFilePath |}
  else None.

(** A change read backwards: what was created is deleted, what was
    deleted is created, and an update stays an update. *)
Definition reverse_change (c : GlobDiffChange) : GlobDiffChange :=
  {| type := match type c with
             | Create => Delete
             | Delete => Create
             | Update => Update
             end;
     filePath := filePath c |}.

(** The paths of the records of one type in a list of changes. *)
Definition paths_of_type (t : GlobDiffChangeType) (changes : list GlobDiffChange)
  : gset string :=
  list_to_set (filePath <$> filter (λ c, type c = t) changes).

(** The run-time value that a snapshot object is: one property for each
    path, its value the object [{ hash, mtimeMs }] that the builder
    assigns there. *)
Definition fileSnapshot_value (fileSnapshot : GlobDiffFileSnapshot) : value :=
  VObject [("hash", VString (hash fileSnapshot));
           ("mtimeMs", VNumber (mtimeMs fileSnapshot))].

Definition snapshot_value (snapshot : GlobDiffSnapshot) : value :=
  VObject ((λ entry, (entry.1, fileSnapshot_value entry.2)) <$> map_to_list snapshot).

(** The options that [globDiff] hands to the builder. *)
Definition builder_options (options : GlobDiffOptions.t)
    (previousSnapshot : option GlobDiffSnapshot) : GetGlobDiffSnapshotOptions.t :=
  GetGlobDiffSnapshotOptions.mk
    (GlobDiffOptions.alwaysHash options) (GlobDiffOptions.cwd options)
    (GlobDiffOptions.files options) (GlobDiffOptions.patterns options)
    previousSnapshot.

(** An options object with one property replaced. *)
Definition set_patterns (patterns : option GlobDiffPatterns) (o : GlobDiffOptions.t)
  : GlobDiffOptions.t :=
  GlobDiffOptions.mk
    (GlobDiffOptions.alwaysHash o) (GlobDiffOptions.cwd o) patterns
    (GlobDiffOptions.files o) (GlobDiffOptions.saveSnapshot o)
    (GlobDiffOptions.snapshot o) (GlobDiffOptions.snapshotFilePath o).

Definition set_cwd (cwd : option string) (o : GlobDiffOptions.t) : GlobDiffOptions.t :=
  GlobDiffOptions.mk
    (GlobDiffOptions.alwaysHash o) cwd (GlobDiffOptions.patterns o)
    (GlobDiffOptions.files o) (GlobDiffOptions.saveSnapshot o)
    (GlobDiffOptions.snapshot o) (GlobDiffOptions.snapshotFilePath o).

Definition set_snapshot (snapshot : option value) (o : GlobDiffOptions.t)
  : GlobDiffOptions.t :=
  GlobDiffOptions.mk
    (GlobDiffOptions.alwaysHash o) (GlobDiffOptions.cwd o) (GlobDiffOptions.patterns o)
    (GlobDiffOptions.files o) (GlobDiffOptions.saveSnapshot o)
    snapshot (GlobDiffOptions.snapshotFilePath o).

Definition set_snapshotFilePath (snapshotFilePath : option string)
    (o : GlobDiffOptions.t) : GlobDiffOptions.t :=
  GlobDiffOptions.mk
    (GlobDiffOptions.alwaysHash o) (GlobDiffOptions.cwd o) (GlobDiffOptions.patterns o)
    (GlobDiffOptions.files o) (GlobDiffOptions.saveSnapshot o)
    (GlobDiffOptions.snapshot o) snapshotFilePath.

Section Specification.
Context `{Collaborators}.

(** The entry that the callback assigns at [filePath], or the error it
    fails with, as a function of the file system. *)
Definition assigned_entry (w : World) (alwaysHash : option bool)
    (previousSnapshot : GlobDiffSnapshot) (filePath : string)
  : Outcome GlobDiffFileSnapshot :=
  match fileSystem w !! filePath with
  | None => Thrown (SystemError "ENOENT" "stat" filePath)
  | Some file =>
      if reusesPreviousHash alwaysHash previousSnapshot filePath (file_mtimeMs file)
      then Returned {| hash := default "" (hash <$> previousSnapshot !! filePath);
                       mtimeMs := file_mtimeMs file |}
      else match file_read_error file with
           | Some code => Thrown (SystemError code "open" filePath)
           | None => Returned {| hash := md5 (file_content file);
                                 mtimeMs := file_mtimeMs file |}
           end
  end.

(** The calls the callback makes for [filePath]. *)
Definition calls_for (w : World) (alwaysHash : option bool)
    (previousSnapshot : GlobDiffSnapshot) (filePath : string) : list Event :=
  match fileSystem w !! filePath with
  | None => [EvStat filePath]
  | Some file =>
      if reusesPreviousHash alwaysHash previousSnapshot filePath (file_mtimeMs file)
      then [EvStat filePath]
      else [EvStat filePath; EvHashFile filePath]
  end.

(** The paths the builder is run on. *)
Definition filePaths_of (options : GetGlobDiffSnapshotOptions.t) (w : World) : list string :=
  match GetGlobDiffSnapshotOptions.files options with
  | Some files => map (λ filePath, path_resolve filePath) files
  | None =>
      globby_matches w (patterns_or_empty (GetGlobDiffSnapshotOptions.patterns options))
  end.

(** What [loadGlobDiffSnapshot] makes of the outcome of reading the file. *)
Definition loaded_from (read : Outcome string) : Outcome GlobDiffSnapshot :=
  match read with
  | Thrown _ => Returned ∅
  | Returned content =>
      if bool_decide (content = "") then Returned ∅
      else match JSON_parse content with
           | None => Thrown SyntaxError
           | Some snapshot =>
               if isValidGlobDiffSnapshot snapshot
               then Returned (asSnapshot snapshot)
               else Thrown (ErrorMessage "Invalid `glob-diff` snapshot file")
           end
  end.

(** The path of the snapshot file. *)
Definition snapshotFilePath_of (options : GlobDiffOptions.t) : string :=
  path_resolve
    (if truthy_string (GlobDiffOptions.snapshotFilePath options)
     then default "" (GlobDiffOptions.snapshotFilePath options)
     else defaultGlobDiffSnapshotFileName).

(** The value of [options.snapshot]. *)
Definition supplied_snapshot (options : GlobDiffOptions.t) : value :=
  default VUndefined (GlobDiffOptions.snapshot options).

(** [globDiff] from the test of [patterns] and [files] on, with the
    previous snapshot in hand. *)
Definition globDiff_with (options : GlobDiffOptions.t)
    (previousSnapshot : GlobDiffSnapshot) : IO GlobDiffResult.t :=
  if negb (truthy_patterns (GlobDiffOptions.patterns options))
     && negb (truthy_files (GlobDiffOptions.files options))
  then throw (ErrorMessage "Either `patterns` or `files` must be provided")
  else
    snapshot ← getGlobDiffSnapshot
      (GetGlobDiffSnapshotOptions.mk
         (GlobDiffOptions.alwaysHash options)
         (GlobDiffOptions.cwd options)
         (GlobDiffOptions.files options)
         (GlobDiffOptions.patterns options)
         (Some previousSnapshot));
    let changes := getGlobDiffChanges previousSnapshot snapshot in
    _ ← (if bool_decide (GlobDiffOptions.saveSnapshot options ≠ Some false)
         then fs_writeFile (snapshotFilePath_of options) (JSON_stringify snapshot)
         else mret ());
    mret (GlobDiffResult.mk snapshot changes).

End Specification.

(** ** A small concrete setting for the examples *)

Module Demo.

(** Stand-ins for the collaborators: a digest that wraps the content,
    a matcher for patterns without wildcards (such a pattern matches
    the file of that name, if it exists), resolution against the
    working directory [/work], and the two JSON functions as far as the
    examples need them. *)
Definition pattern_list (patterns : GlobDiffPatterns) : list string :=
  match patterns with
  | PatternString pattern => [pattern]
  | PatternList patternList => patternList
  end.

Definition literal_matches (w : World) (patterns : GlobDiffPatterns) : list string :=
  filter (λ path, is_Some (fileSystem w !! path)) (pattern_list patterns).

Definition resolve (path : string) : string :=
  if String.prefix "/" path then path else "/work/" +:+ path.

(** The text of a number: its digits, exactly. [NaN] and the
    infinities are written [null], as [JSON.stringify] does. *)
Fixpoint drop_zeros (digits : list ascii) : list ascii :=
  match digits with
  | d :: rest => if bool_decide (d = "0"%char) then drop_zeros rest else digits
  | [] => []
  end.

Definition strip_zeros (digits : list ascii) : list ascii :=
  reverse (drop_zeros (reverse digits)).

Definition print_fraction (n : N) (k : nat) : string :=
  let digits := String.list_ascii_of_string (pretty n) in
  let digits := replicate (S k - length digits) "0"%char ++ digits in
  let whole := take (length digits - k) digits in
  let fraction := strip_zeros (drop (length digits - k) digits) in
  String.string_of_list_ascii
    (match fraction with [] => whole | _ => whole ++ "."%char :: fraction end).

Definition print_number (x : float) : string :=
  match Prim2SF x with
  | SpecFloat.S754_zero _ => "0"
  | SpecFloat.S754_finite negative m e =>
      (if negative then "-" else "")
      +:+ (if (0 <=? e)%Z then pretty (Z.pos m * 2 ^ e)%Z
           else print_fraction (N.pos m * 5 ^ Z.to_N (- e))%N (Z.to_nat (- e)))
  | _ => "null"
  end.

Definition quote : string :=
  String (Ascii.Ascii false true false false false true false false) EmptyString.

Definition quoted (text : string) : string := quote +:+ text +:+ quote.

(** The JSON text of a snapshot whose paths and hashes have no
    character that JSON escapes. *)
Definition stringify (snapshot : GlobDiffSnapshot) : string :=
  "{" +:+ String.concat ","
            ((λ entry, quoted entry.1 +:+ ":{" +:+ quoted "hash" +:+ ":"
                       +:+ quoted (hash entry.2) +:+ "," +:+ quoted "mtimeMs" +:+ ":"
                       +:+ print_number (mtimeMs entry.2) +:+ "}")
               <$> map_to_list snapshot) +:+ "}".

(** What a first run on [/work/a.js] and [/work/b.js] saves, and the
    value that this text stands for. *)
Definition first_snapshot : GlobDiffSnapshot :=
  {[ "/work/a.js" := {| hash := "md5(let a)"; mtimeMs := 1000.5 |};
     "/work/b.js" := {| hash := "md5(let b)"; mtimeMs := 2000 |} ]}.

Definition first_snapshot_value : value :=
  VObject [("/work/a.js", VObject [("hash", VString "md5(let a)");
                                   ("mtimeMs", VNumber 1000.5)]);
           ("/work/b.js", VObject [("hash", VString "md5(let b)");
                                   ("mtimeMs", VNumber 2000)])].

(** [JSON.parse] on the texts that the examples read; any other text is
    taken for one that [JSON.parse] rejects. *)
Definition parse (text : string) : option value :=
  if bool_decide (text = "{}") then Some (VObject [])
  else if bool_decide (text = "[]") then Some (VArray [])
  else if bool_decide (text = "null") then Some VNull
  else if bool_decide (text = stringify first_snapshot) then Some first_snapshot_value
  else None.

Global Instance collaborators : Collaborators := {|
  md5 := λ content, "md5(" +:+ content +:+ ")";
  globby_matches := literal_matches;
  path_resolve := resolve;
  JSON_parse := parse;
  JSON_stringify := stringify;
|}.

Definition regular (content : string) (modified : float) : File :=
  {| file_content := content; file_mtimeMs := modified;
     file_read_error := None; file_write_error := None |}.

(** Two source files, no snapshot file. *)
Definition two_files : World :=
  {| fileSystem := {[ "/work/a.js" := regular "let a" 1000.5;
                      "/work/b.js" := regular "let b" 2000 ]};
     clock := 3000 |}.

(** The same, with a snapshot file that holds [null]. *)
Definition with_null_snapshot_file : World :=
  {| fileSystem := <["/work/.glob-diff.json" := regular "null" 2500]> (fileSystem two_files);
     clock := 3000 |}.

(** The same, with a snapshot file that cannot be read. *)
Definition with_unreadable_snapshot_file : World :=
  {| fileSystem :=
       <["/work/.glob-diff.json" :=
           {| file_content := "null"; file_mtimeMs := 2500;
              file_read_error := Some "EACCES"; file_write_error := None |}]>
         (fileSystem two_files);
     clock := 3000 |}.

(** The same, with an empty snapshot file. *)
Definition with_empty_snapshot_file : World :=
  {| fileSystem := <["/work/.glob-diff.json" := regular "" 2500]> (fileSystem two_files);
     clock := 3000 |}.

Definition start (w : World) : State := {| world := w; trace := [] |}.

Definition no_options : GlobDiffOptions.t :=
  GlobDiffOptions.mk None None None None None None None.

Definition both_files : GlobDiffPatterns := PatternList ["/work/a.js"; "/work/b.js"].

(** A previous snapshot in which [/work/a.js] has the time stamp the
    file still has, and a hash that is not the digest of its content. *)
Definition stale_a : GlobDiffSnapshot :=
  {[ "/work/a.js" := {| hash := "old"; mtimeMs := 1000.5 |} ]}.

(** A previous snapshot that also has a file that is no longer there. *)
Definition stale_a_and_gone : GlobDiffSnapshot :=
  <["/work/gone.js" := {| hash := "gone"; mtimeMs := 5 |}]> stale_a.

(** [stale_a] as a caller passes it in [options.snapshot]. *)
Definition stale_a_value : value :=
  VObject [("/work/a.js", VObject [("hash", VString "old"); ("mtimeMs", VNumber 1000.5)])].


(** The files [a.js] and [b.js] of the working directory, compared
    with [stale_a_and_gone]. *)
Definition build_both : GetGlobDiffSnapshotOptions.t :=
  GetGlobDiffSnapshotOptions.mk None None (Some ["a.js"; "/work/b.js"]) None
    (Some stale_a_and_gone).

(** What that build returns. *)
Definition built_both : GlobDiffSnapshot :=
  {[ "/work/a.js" := {| hash := "old"; mtimeMs := 1000.5 |};
     "/work/b.js" := {| hash := "md5(let b)"; mtimeMs := 2000 |} ]}.

Definition with_snapshot (snapshot : value) (patterns : option GlobDiffPatterns)
  : GlobDiffOptions.t :=
  GlobDiffOptions.mk None None patterns None (Some false) (Some snapshot) None.

End Demo.

(** * Properties *)

Example isValid_object :
  isValidGlobDiffSnapshot
    (VObject [("/a", VObject [("hash", VString "h1"); ("mtimeMs", VNumber 1.5)])]) = true.
Proof. vm_compute. reflexivity. Qed.

Example isValid_string : isValidGlobDiffSnapshot (VString "abc") = false.
Proof. reflexivity. Qed.

Example isValid_missing_mtimeMs :
  isValidGlobDiffSnapshot (VObject [("/a", VObject [("hash", VString "h1")])]) = false.
Proof. vm_compute. reflexivity. Qed.

Example isValid_array_of_entries :
  isValidGlobDiffSnapshot
    (VArray [VObject [("hash", VString "h1"); ("mtimeMs", VNumber 2)]]) = true.
Proof. vm_compute. reflexivity. Qed.

Example asSnapshot_array :
  asSnapshot (VArray [VObject [("hash", VString "h1"); ("mtimeMs", VNumber 2)]])
  = {[ "0" := {| hash := "h1"; mtimeMs := 2 |} ]}.
Proof. vm_compute. reflexivity. Qed.

(** ** Validation *)

Lemma is_null_true (v : value) : is_null v = true ↔ v = VNull.
Proof. destruct v; simpl; split; congruence. Qed.

Lemma has_property_false (key : string) (v : value) :
  has_property key v = false ↔ own_property key (Object_entries v) = None.
Proof.
  unfold has_property. rewrite bool_decide_eq_false, <- eq_None_not_Some. done.
Qed.

Lemma isInvalidEntry_spec (filePath : string) (fileSnapshot : value) :
  isInvalidEntry (filePath, fileSnapshot) = true ↔ rejected_entry fileSnapshot.
Proof.
  unfold isInvalidEntry, rejected_entry.
  rewrite !orb_true_iff, !negb_true_iff, !has_property_false,
    !bool_decide_eq_true, is_null_true.
  simpl. tauto.
Qed.

Lemma elem_of_indexed_from (i : nat) (elems : list value) (e : value) :
  e ∈ elems ↔ ∃ key, (key, e) ∈ indexed_from i elems.
Proof.
  revert i. induction elems as [|x elems IH]; intros i; simpl.
  - split; [by intros ?%elem_of_nil | by intros [? ?%elem_of_nil]].
  - rewrite elem_of_cons, (IH (S i)). split.
    + intros [->|[key Hkey]]; [exists (pretty i); left | exists key; right; done].
    + intros [key [Heq|Hin]%elem_of_cons]; [left; congruence | right; eauto].
Qed.

Lemma forallb_false {A : Type} (f : A → bool) (l : list A) :
  forallb f l = false ↔ ∃ x, x ∈ l ∧ f x = false.
Proof.
  induction l as [|a l IH]; simpl.
  - split; [done | by intros (? & ?%elem_of_nil & _)].
  - rewrite andb_false_iff, IH. split.
    + intros [Ha|(x & Hin & Hx)]; [exists a | exists x]; split; try done.
      * by left.
      * by right.
    + intros (x & [->|Hin]%elem_of_cons & Hx); [by left | right; eauto].
Qed.

Lemma isValidGlobDiffSnapshot_false (snapshot : value) :
  isValidGlobDiffSnapshot snapshot = false ↔
    typeof snapshot ≠ "object" ∨ snapshot = VNull
    ∨ ∃ filePath fileSnapshot,
        (filePath, fileSnapshot) ∈ Object_entries snapshot ∧ rejected_entry fileSnapshot.
Proof.
  unfold isValidGlobDiffSnapshot.
  destruct (bool_decide (typeof snapshot ≠ "object")) eqn:Htype.
  { apply bool_decide_eq_true in Htype. simpl. tauto. }
  apply bool_decide_eq_false in Htype.
  destruct (is_null snapshot) eqn:Hnull; simpl.
  { apply is_null_true in Hnull. tauto. }
  assert (snapshot ≠ VNull) as Hnot_null by (intros ->; discriminate).
  rewrite forallb_false. split.
  - intros ([filePath fileSnapshot] & Hin & Hbad%negb_false_iff).
    right; right. exists filePath, fileSnapshot.
    split; [done | by apply (isInvalidEntry_spec filePath)].
  - intros [?|[?|(filePath & fileSnapshot & Hin & Hbad)]]; [tauto..|].
    exists (filePath, fileSnapshot).
    split; [done | by apply negb_false_iff, isInvalidEntry_spec].
Qed.

(** C3 (as the code has it). The validator returns [false] exactly for
    a value that is not an object (a string, for one) or is null, and for
    an object or an array with an entry that is not an object, is null,
    lacks [hash] or [mtimeMs], or has a [hash] that is not a string or an
    [mtimeMs] that is not a number; it returns [true] otherwise. An array
    is not rejected as such: its elements are its entries, and it is
    valid exactly when none of them is rejected. *)
Theorem isValidGlobDiffSnapshot_spec :
  (∀ snapshot : value,
     isValidGlobDiffSnapshot snapshot = false ↔
       typeof snapshot ≠ "object" ∨ snapshot = VNull
       ∨ ∃ filePath fileSnapshot,
           (filePath, fileSnapshot) ∈ Object_entries snapshot
           ∧ rejected_entry fileSnapshot)
  ∧ (∀ s : string, isValidGlobDiffSnapshot (VString s) = false)
  ∧ (∀ props : list (string * value),
       isValidGlobDiffSnapshot (VObject props) = false ↔
         ∃ filePath fileSnapshot,
           (filePath, fileSnapshot) ∈ props ∧ rejected_entry fileSnapshot)
  ∧ (∀ elems : list value,
       isValidGlobDiffSnapshot (VArray elems) = false ↔
         ∃ fileSnapshot, fileSnapshot ∈ elems ∧ rejected_entry fileSnapshot).
Proof.
  split; [exact isValidGlobDiffSnapshot_false|].
  split; [done|]. split.
  - intros props. rewrite isValidGlobDiffSnapshot_false. simpl.
    split; [intros [?|[?|?]]; done | eauto].
  - intros elems. rewrite isValidGlobDiffSnapshot_false. simpl. split.
    + intros [?|[?|(filePath & fileSnapshot & Hin & Hbad)]]; [done..|].
      exists fileSnapshot. split; [|done].
      apply (elem_of_indexed_from 0). eauto.
    + intros (fileSnapshot & [key Hin]%(elem_of_indexed_from 0) & Hbad). eauto 6.
Qed.

(** C3 (as stated) fails: the empty array passes validation. *)
Lemma isValidGlobDiffSnapshot_accepts_empty_array :
  isValidGlobDiffSnapshot (VArray []) = true.
Proof. reflexivity. Qed.

(** ** The differ *)

Example symmetric_create_delete :
  getGlobDiffChanges
    {[ "/a" := {| hash := "h1"; mtimeMs := 1 |}; "/b" := {| hash := "h2"; mtimeMs := 2 |} ]}
    {[ "/b" := {| hash := "h2"; mtimeMs := 7 |}; "/c" := {| hash := "h3"; mtimeMs := 3 |} ]}
  = [ {| type := Delete; filePath := "/a" |}; {| type := Create; filePath := "/c" |} ].
Proof. vm_compute. reflexivity. Qed.

Example update_detection :
  getGlobDiffChanges
    {[ "/a" := {| hash := "h1"; mtimeMs := 1 |} ]}
    {[ "/a" := {| hash := "h2"; mtimeMs := 1 |} ]}
  = [ {| type := Update; filePath := "/a" |} ].
Proof. vm_compute. reflexivity. Qed.

Lemma foldl_push {A B : Type} (step : list B → A → list B) (pushed : A → option B)
    (l : list A) (acc : list B) :
  (∀ acc x, step acc x = acc ++ option_list (pushed x)) →
  foldl step acc l = acc ++ omap pushed l.
Proof.
  intros Hstep. revert acc. induction l as [|x l IH]; intros acc; simpl.
  - by rewrite app_nil_r.
  - rewrite IH, Hstep. destruct (pushed x); simpl.
    + by rewrite <- app_assoc.
    + by rewrite app_nil_r.
Qed.

Lemma getGlobDiffChanges_loops (previous next : GlobDiffSnapshot) :
  getGlobDiffChanges previous next
  = omap (pushed_by_first_loop (Object_keys next)) (Object_keys previous)
    ++ omap (pushed_by_second_loop previous next) (Object_keys next).
Proof.
  unfold getGlobDiffChanges.
  rewrite (foldl_push _ (pushed_by_second_loop previous next)).
  - f_equal. rewrite (foldl_push _ (pushed_by_first_loop (Object_keys next))); [done|].
    intros acc x. unfold pushed_by_first_loop.
    destruct (negb _); simpl; by rewrite ?app_nil_r.
  - intros acc x. unfold pushed_by_second_loop.
    destruct (negb _); simpl; [done|].
    destruct (hash_differs _ _); simpl; by rewrite ?app_nil_r.
Qed.

Lemma elem_of_Object_keys (snapshot : GlobDiffSnapshot) (path : string) :
  path ∈ Object_keys snapshot ↔ path ∈ dom snapshot.
Proof.
  unfold Object_keys. rewrite elem_of_dom, list_elem_of_fmap. split.
  - intros ([k v] & -> & Hin%elem_of_map_to_list). eauto.
  - intros [v Hv]. exists (path, v). by rewrite elem_of_map_to_list.
Qed.

Lemma NoDup_Object_keys (snapshot : GlobDiffSnapshot) : NoDup (Object_keys snapshot).
Proof. apply NoDup_fst_map_to_list. Qed.

Lemma Set_has_keys (snapshot : GlobDiffSnapshot) (path : string) :
  Set_has (Object_keys snapshot) path = bool_decide (path ∈ dom snapshot).
Proof. unfold Set_has. apply bool_decide_ext, elem_of_Object_keys. Qed.

Lemma pushed_by_first_loop_Some (previous next : GlobDiffSnapshot) (path : string)
    (c : GlobDiffChange) :
  pushed_by_first_loop (Object_keys next) path = Some c ↔
    c = {| type := Delete; filePath := path |} ∧ path ∉ dom next.
Proof.
  unfold pushed_by_first_loop. rewrite Set_has_keys.
  case_bool_decide; simpl; split; try naive_solver.
Qed.

Lemma pushed_by_second_loop_Some (previous next : GlobDiffSnapshot) (path : string)
    (c : GlobDiffChange) :
  pushed_by_second_loop previous next path = Some c ↔
    (c = {| type := Create; filePath := path |} ∧ path ∉ dom previous)
    ∨ (c = {| type := Update; filePath := path |} ∧ path ∈ dom previous
       ∧ hash <$> previous !! path ≠ hash <$> next !! path).
Proof.
  unfold pushed_by_second_loop, hash_differs. rewrite Set_has_keys.
  repeat case_bool_decide; simpl; split; naive_solver.
Qed.

Lemma NoDup_omap_keys (pushed : string → option GlobDiffChange) (l : list string) :
  (∀ x c, pushed x = Some c → filePath c = x) →
  NoDup l → NoDup (omap pushed l).
Proof.
  intros Hpath. induction 1 as [|x l Hx Hl IH]; simpl; [constructor|].
  destruct (pushed x) as [c|] eqn:Hc; [|done].
  constructor; [|done].
  intros (y & Hy & Hcy)%list_elem_of_omap.
  apply Hpath in Hc, Hcy. congruence.
Qed.

Lemma elem_of_getGlobDiffChanges (previous next : GlobDiffSnapshot) (c : GlobDiffChange) :
  c ∈ getGlobDiffChanges previous next ↔ expected_change previous next c.
Proof.
  revert c.
  intros c. rewrite getGlobDiffChanges_loops, elem_of_app, !list_elem_of_omap.
    unfold expected_change. split.
    - intros [(path & Hin & Hc)|(path & Hin & Hc)].
      + apply (pushed_by_first_loop_Some previous) in Hc as [-> Hnot]. simpl.
        by apply elem_of_Object_keys in Hin.
      + apply elem_of_Object_keys in Hin.
        apply pushed_by_second_loop_Some in Hc as [[-> Hnot]|(-> & Hprev & Hhash)];
          simpl; [done|].
        apply elem_of_dom in Hin as [b Hb]. apply elem_of_dom in Hprev as [a Ha].
        exists a, b. rewrite Ha, Hb in Hhash. simpl in Hhash.
        split_and!; [done..|congruence].
    - destruct c as [[] path]; simpl.
      + intros [Hnext Hprev]. right. exists path.
        split; [by apply elem_of_Object_keys|].
        apply pushed_by_second_loop_Some. by left.
      + intros [Hprev Hnext]. left. exists path.
        split; [by apply elem_of_Object_keys|].
        by apply (pushed_by_first_loop_Some previous).
      + intros (a & b & Ha & Hb & Hhash). right. exists path.
        split; [apply elem_of_Object_keys, elem_of_dom; eauto|].
        apply pushed_by_second_loop_Some. right.
        split_and!; [done|apply elem_of_dom; eauto|].
        rewrite Ha, Hb. simpl. congruence.
Qed.

Lemma getGlobDiffChanges_same_hashes (previous next : GlobDiffSnapshot) :
  dom previous = dom next →
  (∀ path a b, previous !! path = Some a → next !! path = Some b → hash a = hash b) →
  getGlobDiffChanges previous next = [].
Proof.
  intros Hdom Hhash.
  destruct (getGlobDiffChanges previous next) as [|c changes] eqn:Hchanges; [done|].
  exfalso.
  assert (expected_change previous next c) as Hc.
  { apply elem_of_getGlobDiffChanges. rewrite Hchanges. by left. }
  unfold expected_change in Hc. destruct (type c).
  - destruct Hc as [Hnext Hprev]. by rewrite Hdom in Hprev.
  - destruct Hc as [Hprev Hnext]. by rewrite Hdom in Hprev.
  - destruct Hc as (a & b & Ha & Hb & Hne). by apply Hne, (Hhash (filePath c)).
Qed.

(** C2. For every pair of snapshots the differ emits exactly one
    deletion per path of [previous] that is not in [next], exactly one
    creation per path of [next] that is not in [previous], exactly one
    update per path of both whose hashes differ, and nothing for a path
    of both whose hashes are equal, whatever their [mtimeMs]; every
    deletion comes before every creation and update. *)
Theorem getGlobDiffChanges_spec (previous next : GlobDiffSnapshot) :
  NoDup (getGlobDiffChanges previous next)
  ∧ (∀ c, c ∈ getGlobDiffChanges previous next ↔ expected_change previous next c)
  ∧ (∀ path a b,
       previous !! path = Some a → next !! path = Some b → hash a = hash b →
       ∀ c, c ∈ getGlobDiffChanges previous next → filePath c ≠ path)
  ∧ ∃ deletions others,
      getGlobDiffChanges previous next = deletions ++ others
      ∧ Forall (λ c, type c = Delete) deletions
      ∧ Forall (λ c, type c ≠ Delete) others.
Proof.
  pose proof (elem_of_getGlobDiffChanges previous next) as Hmem.
  split_and!.
  - rewrite getGlobDiffChanges_loops. apply NoDup_app. split_and!.
    + apply NoDup_omap_keys; [|apply NoDup_Object_keys].
      by intros x c [-> _]%(pushed_by_first_loop_Some previous).
    + intros c (x & _ & [-> _]%(pushed_by_first_loop_Some previous))%list_elem_of_omap.
      intros (y & _ & Hy)%list_elem_of_omap.
      apply pushed_by_second_loop_Some in Hy as [[? _]|[? _]]; discriminate.
    + apply NoDup_omap_keys; [|apply NoDup_Object_keys].
      by intros x c [[-> _]|[-> _]]%pushed_by_second_loop_Some.
  - exact Hmem.
  - intros path a b Ha Hb Hhash c Hc%Hmem <-. unfold expected_change in Hc.
    destruct (type c).
    + destruct Hc as [_ Hc]. apply Hc, elem_of_dom. eauto.
    + destruct Hc as [_ Hc]. apply Hc, elem_of_dom. eauto.
    + destruct Hc as (a' & b' & Ha' & Hb' & Hne). congruence.
  - eexists _, _. split; [apply getGlobDiffChanges_loops|]. split.
    + apply Forall_forall.
      by intros c (x & _ & [-> _]%(pushed_by_first_loop_Some previous))%list_elem_of_omap.
    + apply Forall_forall.
      by intros c (x & _ & [[-> _]|[-> _]]%pushed_by_second_loop_Some)%list_elem_of_omap.
Qed.

(** ** The snapshot builder *)

Ltac unfold_io :=
  unfold mbind, mret, fmap, IO_bind, IO_ret, IO_fmap, throw, catch,
    fs_stat, fs_readFile, hashFile, globby, record_event in *.

(** A number that [===] holds of, on either side, is not [NaN], and so
    is [===] to itself. *)
Lemma number_strict_eq_refl_r (x y : float) :
  number_strict_eq x y = true → number_strict_eq y y = true.
Proof.
  unfold number_strict_eq. rewrite !FloatAxioms.eqb_spec.
  unfold SpecFloat.SFeqb.
  assert (Prim2SF y ≠ SpecFloat.S754_nan →
          SpecFloat.SFcompare (Prim2SF y) (Prim2SF y) = Some Eq) as Hrefl.
  { destruct (Prim2SF y) as [s|s| |s m e]; simpl; intros Hnan; try done.
    - by destruct s.
    - rewrite Z.compare_refl.
      change (PosDef.Pos.compare_cont Eq m m) with (Pos.compare m m).
      rewrite Pos.compare_refl. by destruct s. }
  intros Hxy. rewrite Hrefl; [done|].
  intros Hnan. rewrite Hnan in Hxy. by destruct (Prim2SF x).
Qed.

Section Builder.
Context `{Collaborators}.

Lemma snapshotFile_run (alwaysHash : option bool) (previousSnapshot : GlobDiffSnapshot)
    (filePath : string) (snapshot : GlobDiffSnapshot) (st : State) :
  snapshotFile alwaysHash previousSnapshot filePath snapshot st
  = (match assigned_entry (world st) alwaysHash previousSnapshot filePath with
     | Returned entry => Returned (<[filePath := entry]> snapshot)
     | Thrown e => Thrown e
     end,
     {| world := world st;
        trace := trace st ++ calls_for (world st) alwaysHash previousSnapshot filePath |}).
Proof.
  unfold snapshotFile, assigned_entry, calls_for. unfold_io. simpl.
  destruct (fileSystem (world st) !! filePath) as [file|] eqn:Hfile; [|done].
  destruct (reusesPreviousHash _ _ _ _); [done|]. simpl.
  unfold read_content. rewrite Hfile, <- app_assoc.
  by destruct (file_read_error file).
Qed.

Lemma reusesPreviousHash_spec (alwaysHash : option bool)
    (previousSnapshot : GlobDiffSnapshot) (filePath : string) (fresh : float) :
  reusesPreviousHash alwaysHash previousSnapshot filePath fresh = true ↔
    truthy_bool alwaysHash = false
    ∧ ∃ previousEntry, previousSnapshot !! filePath = Some previousEntry
        ∧ number_strict_eq (mtimeMs previousEntry) fresh = true.
Proof.
  unfold reusesPreviousHash. rewrite andb_true_iff, negb_true_iff.
  destruct (previousSnapshot !! filePath) as [e|]; naive_solver.
Qed.

(** The two cases of the callback, at a path that [stat] finds. *)
Lemma snapshotFile_cases (alwaysHash : option bool)
    (previousSnapshot snapshot : GlobDiffSnapshot) (filePath : string)
    (file : File) (st : State) :
  fileSystem (world st) !! filePath = Some file →
  let fresh := file_mtimeMs file in
  let reuse :=
    truthy_bool alwaysHash = false
    ∧ ∃ previousEntry, previousSnapshot !! filePath = Some previousEntry
        ∧ number_strict_eq (mtimeMs previousEntry) fresh = true in
  (reuse →
     ∃ previousEntry, previousSnapshot !! filePath = Some previousEntry
       ∧ snapshotFile alwaysHash previousSnapshot filePath snapshot st
         = (Returned (<[filePath := {| hash := hash previousEntry; mtimeMs := fresh |}]>
                        snapshot),
            {| world := world st; trace := trace st ++ [EvStat filePath] |}))
  ∧ (¬ reuse →
       snapshotFile alwaysHash previousSnapshot filePath snapshot st
       = (match file_read_error file with
          | None => Returned (<[filePath := {| hash := md5 (file_content file);
                                               mtimeMs := fresh |}]> snapshot)
          | Some code => Thrown (SystemError code "open" filePath)
          end,
          {| world := world st;
             trace := trace st ++ [EvStat filePath; EvHashFile filePath] |})).
Proof.
  intros Hfile fresh reuse. subst fresh reuse.
  rewrite snapshotFile_run. unfold assigned_entry, calls_for. rewrite Hfile.
  rewrite <- reusesPreviousHash_spec.
  destruct (reusesPreviousHash _ _ _ _) eqn:Hreuse; split; try done.
  - intros _. apply reusesPreviousHash_spec in Hreuse as (_ & e & He & _).
    exists e. by rewrite He.
  - intros _. by destruct (file_read_error file).
Qed.

(** The callbacks leave the file system as it is, and each returned
    snapshot has, at the paths visited, the entries assigned there. *)
Lemma Promise_all_world (alwaysHash : option bool) (previousSnapshot : GlobDiffSnapshot)
    (filePaths : list string) (snapshot : GlobDiffSnapshot) (st : State) :
  world (Promise_all (snapshotFile alwaysHash previousSnapshot) filePaths snapshot st).2
  = world st.
Proof.
  revert snapshot st. induction filePaths as [|filePath rest IH]; intros snapshot st.
  - done.
  - simpl. unfold mbind, IO_bind. rewrite snapshotFile_run.
    destruct (assigned_entry _ _ _ _); [|done]. by rewrite IH.
Qed.

Lemma Promise_all_returned (alwaysHash : option bool) (previousSnapshot : GlobDiffSnapshot)
    (filePaths : list string) (snapshot next : GlobDiffSnapshot) (st st' : State) :
  Promise_all (snapshotFile alwaysHash previousSnapshot) filePaths snapshot st
  = (Returned next, st') →
  ∀ path,
    (path ∈ filePaths →
       ∃ entry, assigned_entry (world st) alwaysHash previousSnapshot path = Returned entry
                ∧ next !! path = Some entry)
    ∧ (path ∉ filePaths → next !! path = snapshot !! path).
Proof.
  revert snapshot st. induction filePaths as [|filePath rest IH]; intros snapshot st.
  - simpl. unfold mret, IO_ret. intros [= -> ->] path. split; [|done].
    by intros ?%elem_of_nil.
  - simpl. unfold mbind, IO_bind. rewrite snapshotFile_run.
    destruct (assigned_entry (world st) alwaysHash previousSnapshot filePath)
      as [entry|] eqn:Hentry; [|done].
    intros Hrun path. destruct (IH _ _ Hrun path) as [Hin Hout].
    simpl in Hin. split.
    + intros Hpath. destruct (decide (path ∈ rest)) as [Hrest|Hrest]; [by apply Hin|].
      apply elem_of_cons in Hpath as [->|?]; [|done].
      exists entry. split; [done|]. by rewrite Hout, lookup_insert_eq.
    + intros [Hne Hrest]%not_elem_of_cons. by rewrite Hout, lookup_insert_ne.
Qed.

(** The build returns when every file can be given an entry. *)
Lemma Promise_all_returns (alwaysHash : option bool) (previousSnapshot : GlobDiffSnapshot)
    (filePaths : list string) (snapshot : GlobDiffSnapshot) (st : State) :
  (∀ path, path ∈ filePaths →
     ∃ entry, assigned_entry (world st) alwaysHash previousSnapshot path = Returned entry) →
  ∃ next st',
    Promise_all (snapshotFile alwaysHash previousSnapshot) filePaths snapshot st
    = (Returned next, st').
Proof.
  revert snapshot st. induction filePaths as [|filePath rest IH]; intros snapshot st Hall.
  - by eexists _, _.
  - simpl. unfold mbind, IO_bind. rewrite snapshotFile_run.
    destruct (Hall filePath) as [entry ->]; [by left|].
    apply IH. intros path Hpath. simpl. apply Hall. by right.
Qed.

(** The calls of a build, in the order they are made here. *)
Lemma Promise_all_trace (alwaysHash : option bool) (previousSnapshot : GlobDiffSnapshot)
    (filePaths : list string) (snapshot : GlobDiffSnapshot) (st : State) :
  ∃ events,
    trace (Promise_all (snapshotFile alwaysHash previousSnapshot) filePaths snapshot st).2
    = trace st ++ events
    ∧ ∀ ev, ev ∈ events →
        ∃ path, path ∈ filePaths
                ∧ ev ∈ calls_for (world st) alwaysHash previousSnapshot path.
Proof.
  revert snapshot st. induction filePaths as [|filePath rest IH]; intros snapshot st.
  - exists []. split; [by rewrite app_nil_r | by intros ? ?%elem_of_nil].
  - simpl. unfold mbind, IO_bind. rewrite snapshotFile_run.
    destruct (assigned_entry _ _ _ _) as [entry|].
    + edestruct IH as (events & -> & Hevents). simpl.
      exists (calls_for (world st) alwaysHash previousSnapshot filePath ++ events).
      split; [by rewrite app_assoc|].
      intros ev [?|(path & ? & ?)%Hevents]%elem_of_app.
      * exists filePath. split; [by left | done].
      * exists path. split; [by right | done].
    + eexists. split; [done|]. intros ev Hev. exists filePath. split; [by left | done].
Qed.

Lemma getGlobDiffSnapshot_run (options : GetGlobDiffSnapshotOptions.t) (st : State) :
  ∃ st0,
    world st0 = world st
    ∧ (trace st0 = trace st ∨ ∃ patterns, trace st0 = trace st ++ [EvGlobby patterns])
    ∧ getGlobDiffSnapshot options st
      = Promise_all
          (snapshotFile (GetGlobDiffSnapshotOptions.alwaysHash options)
             (default ∅ (GetGlobDiffSnapshotOptions.snapshot options)))
          (filePaths_of options (world st)) ∅ st0.
Proof.
  unfold getGlobDiffSnapshot, filePaths_of. unfold_io.
  destruct (GetGlobDiffSnapshotOptions.files options); simpl.
  - exists st. eauto.
  - eexists {| world := world st; trace := _ |}. split_and!; [done| |done].
    right. by eexists.
Qed.

Lemma getGlobDiffSnapshot_returned (options : GetGlobDiffSnapshotOptions.t)
    (st st' : State) (next : GlobDiffSnapshot) :
  getGlobDiffSnapshot options st = (Returned next, st') →
  world st' = world st
  ∧ ∀ path,
      (path ∈ filePaths_of options (world st) →
         ∃ entry,
           assigned_entry (world st) (GetGlobDiffSnapshotOptions.alwaysHash options)
             (default ∅ (GetGlobDiffSnapshotOptions.snapshot options)) path
           = Returned entry
           ∧ next !! path = Some entry)
      ∧ (path ∉ filePaths_of options (world st) → next !! path = None).
Proof.
  destruct (getGlobDiffSnapshot_run options st) as (st0 & Hworld & _ & ->).
  intros Hrun. split.
  - rewrite <- Hworld.
    erewrite <- (Promise_all_world _ _ _ _ st0). by rewrite Hrun.
  - intros path. destruct (Promise_all_returned _ _ _ _ _ _ _ Hrun path) as [Hin Hout].
    rewrite Hworld in Hin. split; [done|].
    intros Hpath. by rewrite Hout.
Qed.

Lemma Promise_all_returned_trace (alwaysHash : option bool)
    (previousSnapshot : GlobDiffSnapshot) (filePaths : list string)
    (snapshot next : GlobDiffSnapshot) (st st' : State) :
  Promise_all (snapshotFile alwaysHash previousSnapshot) filePaths snapshot st
  = (Returned next, st') →
  trace st' = trace st ++ (filePaths ≫= calls_for (world st) alwaysHash previousSnapshot).
Proof.
  revert snapshot st. induction filePaths as [|filePath rest IH]; intros snapshot st.
  - simpl. unfold mret, IO_ret. intros [= _ <-]. by rewrite app_nil_r.
  - simpl. unfold mbind at 1, IO_bind. rewrite snapshotFile_run.
    destruct (assigned_entry _ _ _ _); [|done].
    intros ->%IH. simpl. by rewrite app_assoc.
Qed.

Lemma EvHashFile_in_calls_for (w : World) (alwaysHash : option bool)
    (previousSnapshot : GlobDiffSnapshot) (filePath path : string) :
  EvHashFile path ∈ calls_for w alwaysHash previousSnapshot filePath ↔
    filePath = path
    ∧ ∃ file, fileSystem w !! filePath = Some file
        ∧ reusesPreviousHash alwaysHash previousSnapshot filePath (file_mtimeMs file) = false.
Proof.
  unfold calls_for. destruct (fileSystem w !! filePath) as [file|].
  - destruct (reusesPreviousHash _ _ _ _) eqn:Hreuse.
    + rewrite list_elem_of_singleton. split; [done|].
      intros (_ & file' & [= <-] & Hfalse). congruence.
    + rewrite elem_of_cons, list_elem_of_singleton. split.
      * intros [[=]|[= ->]]. eauto.
      * intros [-> _]. by right.
  - rewrite list_elem_of_singleton. split; [done | by intros (_ & ? & ? & _)].
Qed.

(** The two cases in a build that returns: the entry of each path, and
    whether [hashFile] was called for it. *)
Lemma getGlobDiffSnapshot_cases (options : GetGlobDiffSnapshotOptions.t)
    (st st' : State) (next : GlobDiffSnapshot) (filePath : string) :
  getGlobDiffSnapshot options st = (Returned next, st') →
  filePath ∈ filePaths_of options (world st) →
  let alwaysHash := GetGlobDiffSnapshotOptions.alwaysHash options in
  let previousSnapshot := default ∅ (GetGlobDiffSnapshotOptions.snapshot options) in
  ∃ file events,
    fileSystem (world st) !! filePath = Some file
    ∧ trace st' = trace st ++ events
    ∧ let fresh := file_mtimeMs file in
      let reuse :=
        truthy_bool alwaysHash = false
        ∧ ∃ previousEntry, previousSnapshot !! filePath = Some previousEntry
            ∧ number_strict_eq (mtimeMs previousEntry) fresh = true in
      (reuse →
         ∃ previousEntry, previousSnapshot !! filePath = Some previousEntry
           ∧ next !! filePath = Some {| hash := hash previousEntry; mtimeMs := fresh |}
           ∧ EvHashFile filePath ∉ events)
      ∧ (¬ reuse →
           next !! filePath = Some {| hash := md5 (file_content file); mtimeMs := fresh |}
           ∧ EvHashFile filePath ∈ events).
Proof.
  intros Hrun Hin alwaysHash previousSnapshot.
  destruct (getGlobDiffSnapshot_returned _ _ _ _ Hrun) as [_ Hnext].
  destruct (Hnext filePath) as [Hentry _].
  destruct (Hentry Hin) as (entry & Hassigned & Hlookup).
  fold alwaysHash previousSnapshot in Hassigned.
  destruct (getGlobDiffSnapshot_run options st) as (st0 & Hworld0 & Htrace0 & Hbuild).
  rewrite Hbuild in Hrun. apply Promise_all_returned_trace in Hrun.
  rewrite Hworld0 in Hrun. fold alwaysHash previousSnapshot in Hrun.
  unfold assigned_entry in Hassigned.
  destruct (fileSystem (world st) !! filePath) as [file|] eqn:Hfile; [|done].
  assert (∃ glob, trace st0 = trace st ++ glob ∧ EvHashFile filePath ∉ glob)
    as (glob & Hglob & Hnohash).
  { destruct Htrace0 as [->|[patterns ->]].
    - exists []. split; [by rewrite app_nil_r | apply not_elem_of_nil].
    - exists [EvGlobby patterns]. split; [done | by intros [=]%list_elem_of_singleton]. }
  exists file, (glob ++ (filePaths_of options (world st)
                          ≫= calls_for (world st) alwaysHash previousSnapshot)).
  split; [done|]. split; [by rewrite Hrun, Hglob, app_assoc|].
  simpl. rewrite <- reusesPreviousHash_spec.
  destruct (reusesPreviousHash alwaysHash previousSnapshot filePath (file_mtimeMs file))
    eqn:Hreuse; split; try done; intros _.
  - apply reusesPreviousHash_spec in Hreuse as Hcase. destruct Hcase as (_ & e & He & _).
    exists e. rewrite He in Hassigned. injection Hassigned as <-.
    split_and!; [done..|].
    intros [?|Hcalled]%elem_of_app; [done|].
    apply list_elem_of_bind in Hcalled as (filePath' & Hcalled & _).
    apply EvHashFile_in_calls_for in Hcalled as (-> & file' & Hfile' & Hfalse).
    congruence.
  - destruct (file_read_error file); [done|]. injection Hassigned as <-.
    split; [done|]. apply elem_of_app. right.
    apply list_elem_of_bind. exists filePath. split; [|done].
    apply EvHashFile_in_calls_for. eauto.
Qed.

(** C1. With the time stamp that [stat] has just returned for a path:
    the builder reuses the hash of the previous entry, and does not call
    [hashFile], if and only if [alwaysHash] is not set, the previous
    snapshot has an entry at that very path, and the [mtimeMs] of that
    entry equals the fresh one; in every other case it calls [hashFile],
    and the hash is the digest of the content of the file. Either way the
    entry carries the fresh [mtimeMs]. This is stated of the callback run
    on one path, and of the snapshot and the trace of a build that
    returns. *)
Theorem snapshotFile_reuses_hash_iff :
  (∀ (alwaysHash : option bool) (previousSnapshot snapshot : GlobDiffSnapshot)
     (filePath : string) (file : File) (st : State),
     fileSystem (world st) !! filePath = Some file →
     let fresh := file_mtimeMs file in
     let reuse :=
       truthy_bool alwaysHash = false
       ∧ ∃ previousEntry, previousSnapshot !! filePath = Some previousEntry
           ∧ number_strict_eq (mtimeMs previousEntry) fresh = true in
     (reuse →
        ∃ previousEntry, previousSnapshot !! filePath = Some previousEntry
          ∧ snapshotFile alwaysHash previousSnapshot filePath snapshot st
            = (Returned (<[filePath := {| hash := hash previousEntry;
                                          mtimeMs := fresh |}]> snapshot),
               {| world := world st; trace := trace st ++ [EvStat filePath] |}))
     ∧ (¬ reuse →
          snapshotFile alwaysHash previousSnapshot filePath snapshot st
          = (match file_read_error file with
             | None => Returned (<[filePath := {| hash := md5 (file_content file);
                                                  mtimeMs := fresh |}]> snapshot)
             | Some code => Thrown (SystemError code "open" filePath)
             end,
             {| world := world st;
                trace := trace st ++ [EvStat filePath; EvHashFile filePath] |})))
  ∧ (∀ (options : GetGlobDiffSnapshotOptions.t) (st st' : State)
       (next : GlobDiffSnapshot) (filePath : string),
       getGlobDiffSnapshot options st = (Returned next, st') →
       filePath ∈ filePaths_of options (world st) →
       let alwaysHash := GetGlobDiffSnapshotOptions.alwaysHash options in
       let previousSnapshot := default ∅ (GetGlobDiffSnapshotOptions.snapshot options) in
       ∃ file events,
         fileSystem (world st) !! filePath = Some file
         ∧ trace st' = trace st ++ events
         ∧ let fresh := file_mtimeMs file in
           let reuse :=
             truthy_bool alwaysHash = false
             ∧ ∃ previousEntry, previousSnapshot !! filePath = Some previousEntry
                 ∧ number_strict_eq (mtimeMs previousEntry) fresh = true in
           (reuse →
              ∃ previousEntry, previousSnapshot !! filePath = Some previousEntry
                ∧ next !! filePath
                  = Some {| hash := hash previousEntry; mtimeMs := fresh |}
                ∧ EvHashFile filePath ∉ events)
           ∧ (¬ reuse →
                next !! filePath
                = Some {| hash := md5 (file_content file); mtimeMs := fresh |}
                ∧ EvHashFile filePath ∈ events)).
Proof.
  split.
  - exact snapshotFile_cases.
  - exact getGlobDiffSnapshot_cases.
Qed.

(** C5. When the paths the builder is run on are distinct, the snapshot
    it returns has exactly these paths as keys, one entry for each, and
    no entry at any other path, whatever the previous snapshot has
    there. *)
Theorem getGlobDiffSnapshot_keys (options : GetGlobDiffSnapshotOptions.t)
    (st st' : State) (next : GlobDiffSnapshot) :
  NoDup (filePaths_of options (world st)) →
  getGlobDiffSnapshot options st = (Returned next, st') →
  dom next = list_to_set (filePaths_of options (world st))
  ∧ size next = length (filePaths_of options (world st))
  ∧ ∀ path, path ∉ filePaths_of options (world st) → next !! path = None.
Proof.
  intros Hdistinct [_ Hnext]%getGlobDiffSnapshot_returned.
  assert (dom next = list_to_set (filePaths_of options (world st))) as Hdom.
  { apply set_eq. intros path. rewrite elem_of_dom, elem_of_list_to_set.
    destruct (Hnext path) as [Hin Hout]. split.
    - intros [entry Hentry].
      destruct (decide (path ∈ filePaths_of options (world st))) as [|Hnot]; [done|].
      rewrite (Hout Hnot) in Hentry. done.
    - intros (entry & _ & ->)%Hin. eauto. }
  split_and!; [done| |intros path; apply Hnext].
  by rewrite <- size_dom, Hdom, size_list_to_set.
Qed.

(** Building again, in the same file system, against the snapshot just
    built: the entry at a path is assigned the hash it already has, and
    by reuse when time stamps are compared and the file has one. *)
Lemma assigned_entry_again (w : World) (alwaysHash : option bool)
    (previous next : GlobDiffSnapshot) (path : string) (entry : GlobDiffFileSnapshot) :
  assigned_entry w alwaysHash previous path = Returned entry →
  next !! path = Some entry →
  ∃ entry',
    assigned_entry w alwaysHash next path = Returned entry'
    ∧ hash entry' = hash entry
    ∧ (truthy_bool alwaysHash = false →
       number_strict_eq (mtimeMs entry) (mtimeMs entry) = true →
       calls_for w alwaysHash next path = [EvStat path]).
Proof.
  unfold assigned_entry, calls_for. intros Hentry Hnext.
  destruct (fileSystem w !! path) as [file|]; [|done].
  assert (mtimeMs entry = file_mtimeMs file) as Hfresh.
  { destruct (reusesPreviousHash alwaysHash previous _ _); [by injection Hentry as <-|].
    destruct (file_read_error file); [done | by injection Hentry as <-]. }
  assert (reusesPreviousHash alwaysHash previous path (file_mtimeMs file) = true →
          reusesPreviousHash alwaysHash next path (file_mtimeMs file) = true) as Hstill.
  { rewrite !reusesPreviousHash_spec.
    intros (Hflag & previousEntry & _ & Heq%number_strict_eq_refl_r).
    split; [done|]. exists entry. by rewrite Hfresh. }
  destruct (reusesPreviousHash alwaysHash next path (file_mtimeMs file)) eqn:Hreuse'.
  - eexists. split; [done|]. by rewrite Hnext.
  - destruct (reusesPreviousHash alwaysHash previous path (file_mtimeMs file)).
    { by discriminate Hstill. }
    destruct (file_read_error file); [done|]. injection Hentry as <-.
    eexists. split_and!; [done..|].
    intros Hflag Hnumber. exfalso.
    apply not_true_iff_false in Hreuse'. apply Hreuse', reusesPreviousHash_spec.
    split; [done|]. exists {| hash := md5 (file_content file); mtimeMs := file_mtimeMs file |}.
    done.
Qed.

Lemma assigned_entry_agree (w w2 : World) (alwaysHash : option bool)
    (previousSnapshot : GlobDiffSnapshot) (path : string) :
  fileSystem w2 !! path = fileSystem w !! path →
  assigned_entry w2 alwaysHash previousSnapshot path
  = assigned_entry w alwaysHash previousSnapshot path
  ∧ calls_for w2 alwaysHash previousSnapshot path
    = calls_for w alwaysHash previousSnapshot path.
Proof. intros Heq. unfold assigned_entry, calls_for. by rewrite Heq. Qed.

(** The snapshot built again, on the same files with none of them
    changed, against the snapshot just built. *)
Lemma getGlobDiffSnapshot_again (options : GetGlobDiffSnapshotOptions.t)
    (st st1 st2 : State) (next : GlobDiffSnapshot) :
  getGlobDiffSnapshot options st = (Returned next, st1) →
  filePaths_of options (world st2) = filePaths_of options (world st) →
  (∀ path, path ∈ filePaths_of options (world st) →
     fileSystem (world st2) !! path = fileSystem (world st) !! path) →
  ∃ (next' : GlobDiffSnapshot) (st2' : State) (events : list Event),
    getGlobDiffSnapshot
      (GetGlobDiffSnapshotOptions.mk
         (GetGlobDiffSnapshotOptions.alwaysHash options)
         (GetGlobDiffSnapshotOptions.cwd options)
         (GetGlobDiffSnapshotOptions.files options)
         (GetGlobDiffSnapshotOptions.patterns options)
         (Some next)) st2
    = (Returned next', st2')
    ∧ dom next = dom next'
    ∧ (∀ path a b, next !! path = Some a → next' !! path = Some b → hash a = hash b)
    ∧ getGlobDiffChanges next next' = []
    ∧ trace st2' = trace st2 ++ events
    ∧ (truthy_bool (GetGlobDiffSnapshotOptions.alwaysHash options) = false →
       (∀ path file, fileSystem (world st) !! path = Some file →
          number_strict_eq (file_mtimeMs file) (file_mtimeMs file) = true) →
       ∀ path, EvHashFile path ∉ events).
Proof.
  intros Hfirst Hsameset Hsamefiles.
  apply getGlobDiffSnapshot_returned in Hfirst as [_ Hnext].
  set (again := GetGlobDiffSnapshotOptions.mk _ _ _ _ (Some next)).
  set (alwaysHash := GetGlobDiffSnapshotOptions.alwaysHash options) in *.
  set (previous := default ∅ (GetGlobDiffSnapshotOptions.snapshot options)) in *.
  assert (filePaths_of again (world st2) = filePaths_of options (world st)) as Hpaths
    by exact Hsameset.
  assert (∀ path, path ∈ filePaths_of options (world st) →
            ∃ entry entry',
              next !! path = Some entry
              ∧ assigned_entry (world st2) alwaysHash next path = Returned entry'
              ∧ hash entry' = hash entry
              ∧ (truthy_bool alwaysHash = false →
                 number_strict_eq (mtimeMs entry) (mtimeMs entry) = true →
                 calls_for (world st2) alwaysHash next path = [EvStat path])) as Hagain.
  { intros path Hin. destruct (Hnext path) as [Hin' _].
    destruct (Hin' Hin) as (entry & Hentry & Hlookup).
    destruct (assigned_entry_again _ _ _ _ _ _ Hentry Hlookup) as (entry' & ? & ? & ?).
    destruct (assigned_entry_agree (world st) (world st2) alwaysHash next path
                (Hsamefiles path Hin)) as [-> ->].
    by exists entry, entry'. }
  destruct (getGlobDiffSnapshot_run again st2) as (st0 & Hworld0 & Htrace0 & Hrun).
  simpl in Hrun. rewrite Hpaths in Hrun. fold alwaysHash in Hrun.
  destruct (Promise_all_returns alwaysHash next (filePaths_of options (world st)) ∅ st0)
    as (next' & st2' & Hsecond).
  { intros path (_ & entry' & _ & Hentry' & _)%Hagain.
    exists entry'. by rewrite Hworld0. }
  pose proof (Promise_all_returned _ _ _ _ _ _ _ Hsecond) as Hnext'.
  rewrite Hworld0 in Hnext'.
  assert (∀ path a b, next !! path = Some a → next' !! path = Some b → hash a = hash b)
    as Hhash.
  { intros path a b Ha Hb.
    destruct (decide (path ∈ filePaths_of options (world st))) as [Hin|Hnot].
    - destruct (Hagain path Hin) as (entry & entry' & Hentry & Hentry' & Heq & _).
      destruct (Hnext' path) as [Hin' _].
      destruct (Hin' Hin) as (entry'' & Hentry'' & Hlookup'). congruence.
    - destruct (Hnext path) as [_ Hout]. rewrite (Hout Hnot) in Ha. done. }
  assert (dom next = dom next') as Hdom.
  { apply set_eq. intros path. rewrite !elem_of_dom.
    destruct (Hnext path) as [Hin Hout], (Hnext' path) as [Hin' Hout'].
    destruct (decide (path ∈ filePaths_of options (world st))) as [Hpath|Hpath].
    - destruct (Hin Hpath) as (? & _ & ->), (Hin' Hpath) as (? & _ & ->). split; eauto.
    - by rewrite (Hout Hpath), (Hout' Hpath), lookup_empty. }
  destruct (Promise_all_trace alwaysHash next (filePaths_of options (world st)) ∅ st0)
    as (events & Htrace & Hevents).
  rewrite Hsecond in Htrace. simpl in Htrace. rewrite Hworld0 in Hevents.
  assert (∃ glob, trace st0 = trace st2 ++ glob ∧ ∀ path, EvHashFile path ∉ glob)
    as (glob & Hglob & Hnohash).
  { destruct Htrace0 as [->|[patterns ->]].
    - exists []. split; [by rewrite app_nil_r|]. intros path. apply not_elem_of_nil.
    - exists [EvGlobby patterns]. split; [done|].
      intros path [=]%list_elem_of_singleton. }
  exists next', st2', (glob ++ events). rewrite Hrun.
  split_and!; [done..| by apply getGlobDiffChanges_same_hashes
              | by rewrite Htrace, Hglob, app_assoc |].
  intros Hflag Hnumbers path [Hpath|Hpath]%elem_of_app; [by apply Hnohash in Hpath|].
  apply Hevents in Hpath as (path' & Hin & Hcall).
  destruct (Hagain path' Hin) as (entry & entry' & Hentry & _ & _ & Hcalls).
  rewrite Hcalls in Hcall; [by apply list_elem_of_singleton in Hcall|done|].
  destruct (Hnext path') as [Hin' _].
  destruct (Hin' Hin) as (entry'' & Hassigned & Hlookup).
  assert (entry'' = entry) as -> by congruence.
  unfold assigned_entry in Hassigned.
  destruct (fileSystem (world st) !! path') as [file|] eqn:Hfile; [|done].
  assert (mtimeMs entry = file_mtimeMs file) as ->.
  { destruct (reusesPreviousHash _ _ _ _); [by injection Hassigned as <-|].
    destruct (file_read_error file); [done | by injection Hassigned as <-]. }
  by eapply Hnumbers.
Qed.

End Builder.

(** ** Loading the snapshot file *)

Section Operation.
Context `{Collaborators}.

Lemma loadGlobDiffSnapshot_run (snapshotFilePath : string) (st : State) :
  loadGlobDiffSnapshot snapshotFilePath st
  = (loaded_from (read_content (world st) snapshotFilePath),
     {| world := world st; trace := trace st ++ [EvReadFile snapshotFilePath] |}).
Proof.
  unfold loadGlobDiffSnapshot, loaded_from. unfold_io. simpl.
  destruct (read_content (world st) snapshotFilePath) as [content|e]; simpl; [|done].
  destruct (bool_decide (content = "")); simpl; [done|].
  destruct (JSON_parse content) as [snapshot|]; [|done].
  by destruct (isValidGlobDiffSnapshot snapshot).
Qed.

(** C10. Whatever makes reading the snapshot file fail (the file is
    missing, or opening it fails with any error code), and also when the
    file is read and is empty, loading returns the empty snapshot: the
    error of a failed read is dropped unseen. *)
Theorem loadGlobDiffSnapshot_read_failure (snapshotFilePath : string) (st : State) :
  let loaded_empty :=
    loadGlobDiffSnapshot snapshotFilePath st
    = (Returned ∅,
       {| world := world st; trace := trace st ++ [EvReadFile snapshotFilePath] |}) in
  (∀ e, read_content (world st) snapshotFilePath = Thrown e → loaded_empty)
  ∧ (fileSystem (world st) !! snapshotFilePath = None → loaded_empty)
  ∧ (∀ file code,
       fileSystem (world st) !! snapshotFilePath = Some file →
       file_read_error file = Some code → loaded_empty)
  ∧ (∀ file,
       fileSystem (world st) !! snapshotFilePath = Some file →
       file_read_error file = None → file_content file = "" → loaded_empty).
Proof.
  simpl. rewrite loadGlobDiffSnapshot_run. unfold read_content. split_and!.
  - by intros e ->.
  - by intros ->.
  - by intros file code -> ->.
  - by intros file -> -> ->.
Qed.

(** ** The operation *)

Lemma globDiff_unfold (patternsOrOptions : PatternsOrOptions)
    (maybeOptions : option GlobDiffOptions.t) :
  let options := globDiffOptions patternsOrOptions maybeOptions in
  globDiff patternsOrOptions maybeOptions
  = if truthy (supplied_snapshot options)
       && negb (isValidGlobDiffSnapshot (supplied_snapshot options))
    then throw (ErrorMessage "Invalid `glob-diff` snapshot")
    else
      previousSnapshot ←
        (if negb (truthy (supplied_snapshot options))
         then loadGlobDiffSnapshot (snapshotFilePath_of options)
         else mret (asSnapshot (supplied_snapshot options)));
      globDiff_with options previousSnapshot.
Proof. reflexivity. Qed.

(** A run of [globDiff] in which no snapshot is taken from [options]. *)
Lemma globDiff_loads (patternsOrOptions : PatternsOrOptions)
    (maybeOptions : option GlobDiffOptions.t) (st : State) :
  let options := globDiffOptions patternsOrOptions maybeOptions in
  truthy (supplied_snapshot options) = false →
  globDiff patternsOrOptions maybeOptions st
  = match loaded_from (read_content (world st) (snapshotFilePath_of options)) with
    | Returned previousSnapshot =>
        globDiff_with options previousSnapshot
          {| world := world st;
             trace := trace st ++ [EvReadFile (snapshotFilePath_of options)] |}
    | Thrown e =>
        (Thrown e,
         {| world := world st;
            trace := trace st ++ [EvReadFile (snapshotFilePath_of options)] |})
    end.
Proof.
  intros options Hfalsy. rewrite globDiff_unfold. fold options. rewrite Hfalsy. simpl.
  unfold mbind, IO_bind. rewrite loadGlobDiffSnapshot_run.
  by destruct (loaded_from _).
Qed.

(** A run of [globDiff] with a snapshot taken from [options]. *)
Lemma globDiff_supplied (patternsOrOptions : PatternsOrOptions)
    (maybeOptions : option GlobDiffOptions.t) (st : State) :
  let options := globDiffOptions patternsOrOptions maybeOptions in
  truthy (supplied_snapshot options) = true →
  globDiff patternsOrOptions maybeOptions st
  = if isValidGlobDiffSnapshot (supplied_snapshot options)
    then globDiff_with options (asSnapshot (supplied_snapshot options)) st
    else (Thrown (ErrorMessage "Invalid `glob-diff` snapshot"), st).
Proof.
  intros options Htruthy. rewrite globDiff_unfold. fold options. rewrite Htruthy. simpl.
  by destruct (isValidGlobDiffSnapshot _).
Qed.

Lemma calls_for_not_readFile (w : World) (alwaysHash : option bool)
    (previousSnapshot : GlobDiffSnapshot) (filePath path : string) :
  EvReadFile path ∉ calls_for w alwaysHash previousSnapshot filePath.
Proof.
  unfold calls_for. destruct (fileSystem w !! filePath) as [file|].
  - destruct (reusesPreviousHash _ _ _ _).
    + by intros [=]%list_elem_of_singleton.
    + by intros [[=]|[=]%list_elem_of_singleton]%elem_of_cons.
  - by intros [=]%list_elem_of_singleton.
Qed.

Lemma getGlobDiffSnapshot_trace (options : GetGlobDiffSnapshotOptions.t) (st : State) :
  ∃ events,
    trace (getGlobDiffSnapshot options st).2 = trace st ++ events
    ∧ ∀ path, EvReadFile path ∉ events.
Proof.
  destruct (getGlobDiffSnapshot_run options st) as (st0 & Hworld & Htrace0 & ->).
  edestruct Promise_all_trace as (events & -> & Hevents).
  assert (∀ path, EvReadFile path ∉ events) as Hnone.
  { intros path (filePath & _ & Hcall)%Hevents. by apply calls_for_not_readFile in Hcall. }
  destruct Htrace0 as [->|[patterns ->]].
  - by exists events.
  - exists ([EvGlobby patterns] ++ events). split; [by rewrite app_assoc|].
    intros path [[=]%list_elem_of_singleton|?%Hnone]%elem_of_app. done.
Qed.

Lemma fs_writeFile_trace (path data : string) (st : State) :
  trace (fs_writeFile path data st).2 = trace st ++ [EvWriteFile path data].
Proof. unfold fs_writeFile. by destruct (_ ≫= file_write_error). Qed.


(** C8. When [options] carries no snapshot and there is no file at the
    snapshot path, loading returns the empty snapshot, and the operation
    goes on with it as the previous snapshot; when the file is there, is
    read, and what [JSON.parse] makes of its content fails validation,
    loading fails, and the operation with it, with the error
    [Invalid `glob-diff` snapshot file]. *)
Theorem loadGlobDiffSnapshot_missing_or_malformed (snapshotFilePath : string)
    (patternsOrOptions : PatternsOrOptions) (maybeOptions : option GlobDiffOptions.t)
    (st : State) :
  let options := globDiffOptions patternsOrOptions maybeOptions in
  let st' := {| world := world st; trace := trace st ++ [EvReadFile snapshotFilePath] |} in
  (fileSystem (world st) !! snapshotFilePath = None →
     loadGlobDiffSnapshot snapshotFilePath st = (Returned ∅, st')
     ∧ (GlobDiffOptions.snapshot options = None →
        snapshotFilePath_of options = snapshotFilePath →
        globDiff patternsOrOptions maybeOptions st = globDiff_with options ∅ st'))
  ∧ (∀ file snapshot,
       fileSystem (world st) !! snapshotFilePath = Some file →
       file_read_error file = None →
       file_content file ≠ "" →
       JSON_parse (file_content file) = Some snapshot →
       isValidGlobDiffSnapshot snapshot = false →
       loadGlobDiffSnapshot snapshotFilePath st
       = (Thrown (ErrorMessage "Invalid `glob-diff` snapshot file"), st')
       ∧ (GlobDiffOptions.snapshot options = None →
          snapshotFilePath_of options = snapshotFilePath →
          globDiff patternsOrOptions maybeOptions st
          = (Thrown (ErrorMessage "Invalid `glob-diff` snapshot file"), st'))).
Proof.
  intros options st'. subst st'. split.
  - intros Hmissing. rewrite loadGlobDiffSnapshot_run. unfold read_content.
    rewrite Hmissing. split; [done|].
    intros Hnone <-. rewrite globDiff_loads; fold options.
    + unfold read_content. by rewrite Hmissing.
    + unfold supplied_snapshot. by rewrite Hnone.
  - intros file snapshot Hfile Hreadable Hcontent Hparse Hinvalid.
    assert (loaded_from (read_content (world st) snapshotFilePath)
            = Thrown (ErrorMessage "Invalid `glob-diff` snapshot file")) as Hloaded.
    { unfold read_content, loaded_from. rewrite Hfile, Hreadable.
      rewrite bool_decide_eq_false_2 by done. by rewrite Hparse, Hinvalid. }
    rewrite loadGlobDiffSnapshot_run, Hloaded. split; [done|].
    intros Hnone <-. rewrite globDiff_loads; fold options.
    + by rewrite Hloaded.
    + unfold supplied_snapshot. by rewrite Hnone.
Qed.

(** C9. Called with patterns [p] and an options object [o] that has no
    [patterns], the operation does what it does called with the one
    options object that is [o] with [patterns] set to [p]. *)
Theorem globDiff_call_shapes (p : GlobDiffPatterns) (o : GlobDiffOptions.t) (st : State) :
  GlobDiffOptions.patterns o = None →
  let extended :=
    GlobDiffOptions.mk
      (GlobDiffOptions.alwaysHash o) (GlobDiffOptions.cwd o) (Some p)
      (GlobDiffOptions.files o) (GlobDiffOptions.saveSnapshot o)
      (GlobDiffOptions.snapshot o) (GlobDiffOptions.snapshotFilePath o) in
  isGlobDiffPatterns (inl p) = true
  ∧ isGlobDiffPatterns (inr extended) = false
  ∧ globDiff (inl p) (Some o) st = globDiff (inr extended) None st.
Proof.
  intros Hnone extended. split_and!; [by destruct p | done |].
  unfold globDiff, globDiffOptions, spread_after_patterns. by rewrite Hnone.
Qed.




(** A falsy value in [options.snapshot] is as good as none: the run is
    the one of the same options without [snapshot]. *)
Lemma globDiff_falsy_snapshot (v : value) (o : GlobDiffOptions.t)
    (maybeOptions : option GlobDiffOptions.t) (st : State) :
  truthy v = false →
  globDiff (inr (set_snapshot (Some v) o)) maybeOptions st
  = globDiff (inr (set_snapshot None o)) maybeOptions st.
Proof.
  intros Hfalsy.
  pose proof (globDiff_loads (inr (set_snapshot (Some v) o)) maybeOptions st) as Hsome.
  pose proof (globDiff_loads (inr (set_snapshot None o)) maybeOptions st) as Hnone.
  simpl in Hsome, Hnone. rewrite (Hsome Hfalsy), (Hnone eq_refl). reflexivity.
Qed.


(** C4 (as the code has it). When [options] has neither [patterns] nor
    [files], the operation fails, and calls neither [stat], [hashFile],
    [globby] nor [writeFile]. With a truthy [options.snapshot] it fails
    before any call to the file system: with the error
    [Either `patterns` or `files` must be provided] if the snapshot is
    valid, with [Invalid `glob-diff` snapshot] if not. Otherwise the
    snapshot file is read first, and the operation fails with the error
    of loading it if loading fails, and with
    [Either `patterns` or `files` must be provided] if not. *)
Theorem globDiff_without_patterns_or_files (options : GlobDiffOptions.t)
    (maybeOptions : option GlobDiffOptions.t) (st : State) :
  GlobDiffOptions.patterns options = None →
  GlobDiffOptions.files options = None →
  globDiff (inr options) maybeOptions st
  = if truthy (supplied_snapshot options)
    then
      (Thrown (ErrorMessage
                 (if isValidGlobDiffSnapshot (supplied_snapshot options)
                  then "Either `patterns` or `files` must be provided"
                  else "Invalid `glob-diff` snapshot")),
       st)
    else
      (Thrown
         match loaded_from (read_content (world st) (snapshotFilePath_of options)) with
         | Returned _ => ErrorMessage "Either `patterns` or `files` must be provided"
         | Thrown e => e
         end,
       {| world := world st;
          trace := trace st ++ [EvReadFile (snapshotFilePath_of options)] |}).
Proof.
  intros Hpatterns Hfiles.
  assert (∀ previousSnapshot st0,
            globDiff_with options previousSnapshot st0
            = (Thrown (ErrorMessage "Either `patterns` or `files` must be provided"), st0))
    as Hconfig.
  { intros previousSnapshot st0. unfold globDiff_with. by rewrite Hpatterns, Hfiles. }
  destruct (truthy (supplied_snapshot options)) eqn:Htruthy.
  - pose proof (globDiff_supplied (inr options) maybeOptions st) as Hrun.
    simpl in Hrun. rewrite (Hrun Htruthy).
    destruct (isValidGlobDiffSnapshot _); [apply Hconfig | done].
  - pose proof (globDiff_loads (inr options) maybeOptions st) as Hrun.
    simpl in Hrun. rewrite (Hrun Htruthy).
    destruct (loaded_from _); [apply Hconfig | done].
Qed.

Lemma fs_writeFile_returned (path data : string) (st st' : State) :
  fs_writeFile path data st = (Returned (), st') →
  fileSystem (world st')
  = <[path := {| file_content := data;
                 file_mtimeMs := clock (world st);
                 file_read_error := fileSystem (world st) !! path ≫= file_read_error;
                 file_write_error := None |}]> (fileSystem (world st)).
Proof.
  unfold fs_writeFile. destruct (_ ≫= file_write_error); [done|].
  by intros [= <-].
Qed.

Lemma fs_writeFile_returns (path data : string) (st : State) :
  fileSystem (world st) !! path ≫= file_write_error = None →
  ∃ st', fs_writeFile path data st = (Returned (), st').
Proof. unfold fs_writeFile. intros ->. eauto. Qed.

(** A run that returns and saves: the snapshot it built, and the write. *)
Lemma globDiff_with_saved (options : GlobDiffOptions.t)
    (previousSnapshot : GlobDiffSnapshot) (st st' : State) (result : GlobDiffResult.t) :
  GlobDiffOptions.saveSnapshot options ≠ Some false →
  globDiff_with options previousSnapshot st = (Returned result, st') →
  negb (truthy_patterns (GlobDiffOptions.patterns options))
  && negb (truthy_files (GlobDiffOptions.files options)) = false
  ∧ ∃ st1,
      getGlobDiffSnapshot
        (GetGlobDiffSnapshotOptions.mk
           (GlobDiffOptions.alwaysHash options) (GlobDiffOptions.cwd options)
           (GlobDiffOptions.files options) (GlobDiffOptions.patterns options)
           (Some previousSnapshot)) st
      = (Returned (GlobDiffResult.snapshot result), st1)
      ∧ fs_writeFile (snapshotFilePath_of options)
          (JSON_stringify (GlobDiffResult.snapshot result)) st1
        = (Returned (), st').
Proof.
  intros Hsave. unfold globDiff_with.
  destruct (negb _ && negb _); [done|]. intros Hrun. split; [done|].
  revert Hrun. unfold mbind, IO_bind.
  destruct (getGlobDiffSnapshot _ st) as [[snapshot|e] st1]; [|done].
  rewrite bool_decide_eq_true_2 by done.
  destruct (fs_writeFile _ _ st1) as [[[]|e] st2] eqn:Hwrite; [|done].
  unfold mret, IO_ret. intros [= <- <-]. eauto.
Qed.

(** The operation run again. No snapshot is passed in [options], the
    first run has saved its snapshot, and what it wrote is read back as
    the snapshot it was; the files are the same, none of them has
    changed, and the snapshot file is not one of them. Then the second
    run returns, and with an empty list of changes. *)
Lemma globDiff_again (patternsOrOptions : PatternsOrOptions)
    (maybeOptions : option GlobDiffOptions.t) (st st1 : State)
    (result : GlobDiffResult.t) (reread : value) :
  let options := globDiffOptions patternsOrOptions maybeOptions in
  let builder :=
    GetGlobDiffSnapshotOptions.mk
      (GlobDiffOptions.alwaysHash options) (GlobDiffOptions.cwd options)
      (GlobDiffOptions.files options) (GlobDiffOptions.patterns options) None in
  truthy (supplied_snapshot options) = false →
  GlobDiffOptions.saveSnapshot options ≠ Some false →
  globDiff patternsOrOptions maybeOptions st = (Returned result, st1) →
  fileSystem (world st) !! snapshotFilePath_of options ≫= file_read_error = None →
  JSON_stringify (GlobDiffResult.snapshot result) ≠ "" →
  JSON_parse (JSON_stringify (GlobDiffResult.snapshot result)) = Some reread →
  isValidGlobDiffSnapshot reread = true →
  asSnapshot reread = GlobDiffResult.snapshot result →
  snapshotFilePath_of options ∉ filePaths_of builder (world st) →
  filePaths_of builder (world st1) = filePaths_of builder (world st) →
  ∃ result' st2,
    globDiff patternsOrOptions maybeOptions st1 = (Returned result', st2)
    ∧ GlobDiffResult.changes result' = []
    ∧ dom (GlobDiffResult.snapshot result') = dom (GlobDiffResult.snapshot result).
Proof.
  intros options builder Hfalsy Hsave Hfirst Hreadable Hnonempty Hparse Hvalid Hsame
    Hnotfile Hsameset.
  pose proof (globDiff_loads patternsOrOptions maybeOptions) as Hloads.
  simpl in Hloads. fold options in Hloads.
  rewrite Hloads in Hfirst by done.
  destruct (loaded_from (read_content (world st) (snapshotFilePath_of options)))
    as [previous|]; [|done].
  apply globDiff_with_saved in Hfirst as (Hgiven & sb & Hbuild & Hwrite); [|done].
  pose proof (getGlobDiffSnapshot_returned _ _ _ _ Hbuild) as [Hworldb _].
  simpl in Hworldb.
  apply fs_writeFile_returned in Hwrite as Hfs1. rewrite Hworldb in Hfs1.
  set (written := {| file_content := _ |}) in Hfs1.
  rewrite Hloads by done.
  assert (loaded_from (read_content (world st1) (snapshotFilePath_of options))
          = Returned (GlobDiffResult.snapshot result)) as ->.
  { unfold read_content, loaded_from. rewrite Hfs1, lookup_insert_eq. simpl.
    rewrite Hreadable, bool_decide_eq_false_2 by done.
    by rewrite Hparse, Hvalid, Hsame. }
  set (st1r := {| world := world st1; trace := _ |}).
  unfold globDiff_with. rewrite Hgiven. unfold mbind, IO_bind.
  edestruct (getGlobDiffSnapshot_again _ _ sb st1r _ Hbuild)
    as (next' & st2' & events & Hbuild' & Hdom & _ & Hchanges & _).
  { exact Hsameset. }
  { intros path Hin. simpl. rewrite Hfs1, lookup_insert_ne; [done|].
    intros <-. by apply Hnotfile. }
  simpl in Hbuild'. rewrite Hbuild'.
  pose proof (getGlobDiffSnapshot_returned _ _ _ _ Hbuild') as [Hworld' _].
  simpl in Hworld'.
  rewrite bool_decide_eq_true_2 by done.
  edestruct (fs_writeFile_returns (snapshotFilePath_of options)) as [st2 ->].
  { by rewrite Hworld', Hfs1, lookup_insert_eq. }
  eexists _, _. split; [done|]. simpl. by rewrite Hchanges.
Qed.

(** C6. Run twice, the operation reports no change the second time:
    when no snapshot is passed in [options], the first run has saved
    its snapshot, what it wrote is read back as the snapshot it was, the
    files are the same with none of them changed, and the snapshot file
    is not one of them, the second run returns an empty list of changes.
    This is so because two snapshots with the same keys and equal hashes
    differ by no change, and the snapshot built again, on the same files
    with none of them changed, against the snapshot just built, has its
    keys and its hashes; when time stamps are compared ([alwaysHash] not
    set) and every file has one that is a number, the second build takes
    every hash from the first and never calls [hashFile]. *)
Theorem globDiff_idempotent :
  (∀ previous next : GlobDiffSnapshot,
     dom previous = dom next →
     (∀ path a b, previous !! path = Some a → next !! path = Some b → hash a = hash b) →
     getGlobDiffChanges previous next = [])
  ∧ (∀ (options : GetGlobDiffSnapshotOptions.t) (st st1 st2 : State)
       (next : GlobDiffSnapshot),
       getGlobDiffSnapshot options st = (Returned next, st1) →
       filePaths_of options (world st2) = filePaths_of options (world st) →
       (∀ path, path ∈ filePaths_of options (world st) →
          fileSystem (world st2) !! path = fileSystem (world st) !! path) →
       ∃ (next' : GlobDiffSnapshot) (st2' : State) (events : list Event),
         getGlobDiffSnapshot
           (GetGlobDiffSnapshotOptions.mk
              (GetGlobDiffSnapshotOptions.alwaysHash options)
              (GetGlobDiffSnapshotOptions.cwd options)
              (GetGlobDiffSnapshotOptions.files options)
              (GetGlobDiffSnapshotOptions.patterns options)
              (Some next)) st2
         = (Returned next', st2')
         ∧ dom next = dom next'
         ∧ (∀ path a b, next !! path = Some a → next' !! path = Some b → hash a = hash b)
         ∧ getGlobDiffChanges next next' = []
         ∧ trace st2' = trace st2 ++ events
         ∧ (truthy_bool (GetGlobDiffSnapshotOptions.alwaysHash options) = false →
            (∀ path file, fileSystem (world st) !! path = Some file →
               number_strict_eq (file_mtimeMs file) (file_mtimeMs file) = true) →
            ∀ path, EvHashFile path ∉ events))
  ∧ (∀ (patternsOrOptions : PatternsOrOptions) (maybeOptions : option GlobDiffOptions.t)
       (st st1 : State) (result : GlobDiffResult.t) (reread : value),
       let options := globDiffOptions patternsOrOptions maybeOptions in
       let builder :=
         GetGlobDiffSnapshotOptions.mk
           (GlobDiffOptions.alwaysHash options) (GlobDiffOptions.cwd options)
           (GlobDiffOptions.files options) (GlobDiffOptions.patterns options) None in
       truthy (supplied_snapshot options) = false →
       GlobDiffOptions.saveSnapshot options ≠ Some false →
       globDiff patternsOrOptions maybeOptions st = (Returned result, st1) →
       fileSystem (world st) !! snapshotFilePath_of options ≫= file_read_error = None →
       JSON_stringify (GlobDiffResult.snapshot result) ≠ "" →
       JSON_parse (JSON_stringify (GlobDiffResult.snapshot result)) = Some reread →
       isValidGlobDiffSnapshot reread = true →
       asSnapshot reread = GlobDiffResult.snapshot result →
       snapshotFilePath_of options ∉ filePaths_of builder (world st) →
       filePaths_of builder (world st1) = filePaths_of builder (world st) →
       ∃ result' st2,
         globDiff patternsOrOptions maybeOptions st1 = (Returned result', st2)
         ∧ GlobDiffResult.changes result' = []
         ∧ dom (GlobDiffResult.snapshot result') = dom (GlobDiffResult.snapshot result)).
Proof.
  split_and!.
  - exact getGlobDiffChanges_same_hashes.
  - exact getGlobDiffSnapshot_again.
  - exact globDiff_again.
Qed.

End Operation.

(** ** The properties at work *)

(** C1 at work: [/work/a.js] still has the time stamp of its previous
    entry, so the hash of that entry is kept and only [stat] is called. *)
Lemma snapshotFile_reuses_hash_iff_witness :
  ∃ previousEntry,
    Demo.stale_a !! "/work/a.js" = Some previousEntry
    ∧ snapshotFile None Demo.stale_a "/work/a.js" ∅ (Demo.start Demo.two_files)
      = (Returned (<["/work/a.js" := {| hash := hash previousEntry; mtimeMs := 1000.5 |}]> ∅),
         {| world := Demo.two_files; trace := [EvStat "/work/a.js"] |}).
Proof.
  apply (proj1 snapshotFile_reuses_hash_iff None Demo.stale_a ∅ "/work/a.js"
           (Demo.regular "let a" 1000.5) (Demo.start Demo.two_files)).
  - vm_compute. reflexivity.
  - split; [reflexivity|]. eexists. split; vm_compute; reflexivity.
Defined.

(** C5 at work: two files, and a previous snapshot with a third path. *)
Lemma getGlobDiffSnapshot_keys_witness :
  filePaths_of Demo.build_both Demo.two_files = ["/work/a.js"; "/work/b.js"]
  ∧ (∃ st', getGlobDiffSnapshot Demo.build_both (Demo.start Demo.two_files)
            = (Returned Demo.built_both, st'))
  ∧ dom Demo.built_both = list_to_set (filePaths_of Demo.build_both Demo.two_files)
  ∧ size Demo.built_both = length (filePaths_of Demo.build_both Demo.two_files)
  ∧ ∀ path, path ∉ filePaths_of Demo.build_both Demo.two_files →
            Demo.built_both !! path = None.
Proof.
  split; [reflexivity|].
  split; [eexists; vm_compute; reflexivity|].
  eapply (getGlobDiffSnapshot_keys Demo.build_both (Demo.start Demo.two_files)).
  - apply (bool_decide_unpack _). vm_compute. reflexivity.
  - vm_compute. reflexivity.
Defined.

(** C8 at work: a snapshot file that holds [null]. *)
Lemma loadGlobDiffSnapshot_missing_or_malformed_witness :
  loadGlobDiffSnapshot "/work/.glob-diff.json" (Demo.start Demo.with_null_snapshot_file)
  = (Thrown (ErrorMessage "Invalid `glob-diff` snapshot file"),
     {| world := Demo.with_null_snapshot_file;
        trace := [EvReadFile "/work/.glob-diff.json"] |})
  ∧ globDiff (inl Demo.both_files) None (Demo.start Demo.with_null_snapshot_file)
    = (Thrown (ErrorMessage "Invalid `glob-diff` snapshot file"),
       {| world := Demo.with_null_snapshot_file;
          trace := [EvReadFile "/work/.glob-diff.json"] |}).
Proof.
  destruct (loadGlobDiffSnapshot_missing_or_malformed "/work/.glob-diff.json"
              (inl Demo.both_files) None (Demo.start Demo.with_null_snapshot_file))
    as [_ Hmalformed].
  destruct (Hmalformed (Demo.regular "null" 2500) VNull) as [Hload Hrun];
    try (vm_compute; reflexivity); [done|].
  split; [exact Hload | apply Hrun; reflexivity].
Defined.

(** C10 at work: a snapshot file that cannot be opened. *)
Lemma loadGlobDiffSnapshot_read_failure_witness :
  loadGlobDiffSnapshot "/work/.glob-diff.json"
    (Demo.start Demo.with_unreadable_snapshot_file)
  = (Returned ∅,
     {| world := Demo.with_unreadable_snapshot_file;
        trace := [EvReadFile "/work/.glob-diff.json"] |}).
Proof.
  destruct (loadGlobDiffSnapshot_read_failure "/work/.glob-diff.json"
              (Demo.start Demo.with_unreadable_snapshot_file))
    as (Hany & _).
  apply (Hany (SystemError "EACCES" "open" "/work/.glob-diff.json")).
  vm_compute. reflexivity.
Defined.


(** C4 at work: a valid snapshot in [options], and no [patterns] or
    [files]. *)
Lemma globDiff_without_patterns_or_files_witness :
  globDiff (inr (Demo.with_snapshot Demo.stale_a_value None)) None
    (Demo.start Demo.two_files)
  = (Thrown (ErrorMessage "Either `patterns` or `files` must be provided"),
     Demo.start Demo.two_files).
Proof.
  apply (globDiff_without_patterns_or_files
           (Demo.with_snapshot Demo.stale_a_value None) None (Demo.start Demo.two_files));
    reflexivity.
Defined.

(** C4 (as stated) fails: with no snapshot in [options], the snapshot
    file is read before [patterns] and [files] are looked at, and when it
    holds [null] the error is not the one about [patterns] and [files]. *)
Lemma globDiff_reads_snapshot_file_first :
  globDiff (inr Demo.no_options) None (Demo.start Demo.two_files)
  = (Thrown (ErrorMessage "Either `patterns` or `files` must be provided"),
     {| world := Demo.two_files; trace := [EvReadFile "/work/.glob-diff.json"] |})
  ∧ globDiff (inr Demo.no_options) None (Demo.start Demo.with_null_snapshot_file)
    = (Thrown (ErrorMessage "Invalid `glob-diff` snapshot file"),
       {| world := Demo.with_null_snapshot_file;
          trace := [EvReadFile "/work/.glob-diff.json"] |}).
Proof. split; vm_compute; reflexivity. Qed.

(** C9 at work. *)
Lemma globDiff_call_shapes_witness :
  globDiff (inl Demo.both_files) (Some Demo.no_options) (Demo.start Demo.two_files)
  = globDiff
      (inr (GlobDiffOptions.mk None None (Some Demo.both_files) None None None None))
      None (Demo.start Demo.two_files).
Proof.
  apply (globDiff_call_shapes Demo.both_files Demo.no_options (Demo.start Demo.two_files)).
  reflexivity.
Defined.

(** C6 at work: a first run on [/work/a.js] and [/work/b.js] with no
    snapshot file yet, and a second run in the state the first leaves. *)
Lemma globDiff_idempotent_witness :
  (globDiff (inl Demo.both_files) None (Demo.start Demo.two_files)).1
  = Returned
      (GlobDiffResult.mk Demo.first_snapshot
         [ {| type := Create; filePath := "/work/a.js" |};
           {| type := Create; filePath := "/work/b.js" |} ])
  ∧ ∃ result' st2,
      globDiff (inl Demo.both_files) None
        (globDiff (inl Demo.both_files) None (Demo.start Demo.two_files)).2
      = (Returned result', st2)
      ∧ GlobDiffResult.changes result' = []
      ∧ dom (GlobDiffResult.snapshot result') = dom Demo.first_snapshot.
Proof.
  split; [vm_compute; reflexivity|].
  apply (proj2 (proj2 globDiff_idempotent) (inl Demo.both_files) None
           (Demo.start Demo.two_files)
           (globDiff (inl Demo.both_files) None (Demo.start Demo.two_files)).2
           (GlobDiffResult.mk Demo.first_snapshot
              [ {| type := Create; filePath := "/work/a.js" |};
                {| type := Create; filePath := "/work/b.js" |} ])
           Demo.first_snapshot_value).
  - reflexivity.
  - discriminate.
  - vm_compute. reflexivity.
  - vm_compute. reflexivity.
  - vm_compute. discriminate.
  - vm_compute. reflexivity.
  - vm_compute. reflexivity.
  - vm_compute. reflexivity.
  - apply (bool_decide_unpack _). vm_compute. reflexivity.
  - vm_compute. reflexivity.
Defined.

(** * Further properties *)

(** ** Of the differ *)

Lemma NoDup_getGlobDiffChanges (previous next : GlobDiffSnapshot) :
  NoDup (getGlobDiffChanges previous next).
Proof.
  rewrite getGlobDiffChanges_loops. apply NoDup_app. split_and!.
  - apply NoDup_omap_keys; [|apply NoDup_Object_keys].
    by intros x c [-> _]%(pushed_by_first_loop_Some previous).
  - intros c (x & _ & [-> _]%(pushed_by_first_loop_Some previous))%list_elem_of_omap.
    intros (y & _ & Hy)%list_elem_of_omap.
    apply pushed_by_second_loop_Some in Hy as [[? _]|[? _]]; discriminate.
  - apply NoDup_omap_keys; [|apply NoDup_Object_keys].
    by intros x c [[-> _]|[-> _]]%pushed_by_second_loop_Some.
Qed.

(** Two records of one diff at the same path are one record. *)
Lemma getGlobDiffChanges_one_per_path (previous next : GlobDiffSnapshot)
    (c1 c2 : GlobDiffChange) :
  c1 ∈ getGlobDiffChanges previous next →
  c2 ∈ getGlobDiffChanges previous next →
  filePath c1 = filePath c2 → c1 = c2.
Proof.
  rewrite !elem_of_getGlobDiffChanges. unfold expected_change.
  destruct c1 as [t1 p1], c2 as [t2 p2]. simpl. intros H1 H2 <-.
  assert (∀ a, previous !! p1 = Some a → p1 ∈ dom previous) as Hprev
    by (intros a Ha; apply elem_of_dom; eauto).
  assert (∀ a, next !! p1 = Some a → p1 ∈ dom next) as Hnext
    by (intros a Ha; apply elem_of_dom; eauto).
  destruct t1, t2; try done; naive_solver.
Qed.

Lemma elem_of_paths_of_type (t : GlobDiffChangeType) (changes : list GlobDiffChange)
    (path : string) :
  path ∈ paths_of_type t changes ↔ {| type := t; filePath := path |} ∈ changes.
Proof.
  unfold paths_of_type. rewrite elem_of_list_to_set, list_elem_of_fmap. split.
  - intros ([t' p'] & -> & [Ht Hin]%list_elem_of_filter). simpl in *. by subst.
  - intros Hin. exists {| type := t; filePath := path |}.
    split; [done|]. by apply list_elem_of_filter.
Qed.

(** X1. In the list of changes no path has two records, and the list
    takes the keys of the previous snapshot to the keys of the next:
    these are the previous keys less the deleted paths, plus the created
    ones; the updated paths are keys of both. *)
Theorem getGlobDiffChanges_accounts_for_keys (previous next : GlobDiffSnapshot) :
  let changes := getGlobDiffChanges previous next in
  NoDup (filePath <$> changes)
  ∧ dom next = (dom previous ∖ paths_of_type Delete changes) ∪ paths_of_type Create changes
  ∧ paths_of_type Update changes ⊆ dom previous ∩ dom next
  ∧ paths_of_type Delete changes ⊆ dom previous
  ∧ paths_of_type Create changes ## dom previous.
Proof.
  simpl. split_and!.
  - apply NoDup_fmap_2_strong; [|apply NoDup_getGlobDiffChanges].
    intros c1 c2. apply getGlobDiffChanges_one_per_path.
  - apply set_eq. intros path.
    rewrite elem_of_union, elem_of_difference, !elem_of_paths_of_type,
      !elem_of_getGlobDiffChanges.
    unfold expected_change. simpl.
    destruct (decide (path ∈ dom previous)), (decide (path ∈ dom next)); tauto.
  - intros path. rewrite elem_of_paths_of_type, elem_of_getGlobDiffChanges.
    unfold expected_change. simpl. intros (a & b & Ha & Hb & _).
    apply elem_of_intersection. split; apply elem_of_dom; eauto.
  - intros path. rewrite elem_of_paths_of_type, elem_of_getGlobDiffChanges.
    unfold expected_change. simpl. tauto.
  - intros path. rewrite elem_of_paths_of_type, elem_of_getGlobDiffChanges.
    unfold expected_change. simpl. tauto.
Qed.

Lemma reverse_change_involutive (c : GlobDiffChange) :
  reverse_change (reverse_change c) = c.
Proof. by destruct c as [[] p]. Qed.

Global Instance reverse_change_inj : Inj (=) (=) reverse_change.
Proof.
  intros c1 c2 Heq. by rewrite <- (reverse_change_involutive c1), Heq,
    reverse_change_involutive.
Qed.

Lemma elem_of_getGlobDiffChanges_reverse (previous next : GlobDiffSnapshot)
    (c : GlobDiffChange) :
  c ∈ getGlobDiffChanges previous next
  ↔ reverse_change c ∈ getGlobDiffChanges next previous.
Proof.
  rewrite !elem_of_getGlobDiffChanges. unfold expected_change.
  destruct c as [[] path]; simpl; try tauto.
  split; intros (a & b & Ha & Hb & Hne); exists b, a; split_and!; congruence.
Qed.

(** X2. The diff taken the other way round has the same records read
    backwards: creations for deletions, deletions for creations, and the
    same updates. *)
Theorem getGlobDiffChanges_reverse (previous next : GlobDiffSnapshot) :
  getGlobDiffChanges next previous
  ≡ₚ reverse_change <$> getGlobDiffChanges previous next.
Proof.
  apply NoDup_Permutation.
  - apply NoDup_getGlobDiffChanges.
  - apply NoDup_fmap; [apply _ | apply NoDup_getGlobDiffChanges].
  - intros c. rewrite list_elem_of_fmap. split.
    + intros Hc. exists (reverse_change c).
      rewrite reverse_change_involutive. split; [done|].
      apply (proj2 (elem_of_getGlobDiffChanges_reverse previous next (reverse_change c))).
      by rewrite reverse_change_involutive.
    + intros (c' & -> & Hc').
      by apply (proj1 (elem_of_getGlobDiffChanges_reverse previous next c')).
Qed.

Lemma omap_always_Some {A B : Type} (f : A → option B) (g : A → B) (l : list A) :
  (∀ x, x ∈ l → f x = Some (g x)) → omap f l = g <$> l.
Proof.
  induction l as [|x l IH]; intros Hall; simpl; [done|].
  rewrite (Hall x) by left. simpl. f_equal. apply IH. intros y Hy. apply Hall. by right.
Qed.

Lemma omap_always_None {A B : Type} (f : A → option B) (l : list A) :
  (∀ x, x ∈ l → f x = None) → omap f l = [].
Proof.
  induction l as [|x l IH]; intros Hall; simpl; [done|].
  rewrite (Hall x) by left. apply IH. intros y Hy. apply Hall. by right.
Qed.

Lemma Object_keys_empty : Object_keys ∅ = [].
Proof. unfold Object_keys. by rewrite map_to_list_empty. Qed.

(** X3. Against an empty previous snapshot every path of the next one
    is reported as created, in the order of its keys, and nothing else is
    reported; against an empty next snapshot every path of the previous
    one is reported as deleted. *)
Theorem getGlobDiffChanges_empty (snapshot : GlobDiffSnapshot) :
  getGlobDiffChanges ∅ snapshot
  = (λ path, {| type := Create; filePath := path |}) <$> Object_keys snapshot
  ∧ getGlobDiffChanges snapshot ∅
    = (λ path, {| type := Delete; filePath := path |}) <$> Object_keys snapshot
  ∧ length (getGlobDiffChanges ∅ snapshot) = size snapshot
  ∧ length (getGlobDiffChanges snapshot ∅) = size snapshot.
Proof.
  assert (getGlobDiffChanges ∅ snapshot
          = (λ path, {| type := Create; filePath := path |}) <$> Object_keys snapshot)
    as Hcreated.
  { rewrite getGlobDiffChanges_loops, Object_keys_empty. simpl.
    apply omap_always_Some. intros path _. unfold pushed_by_second_loop.
    by rewrite Object_keys_empty. }
  assert (getGlobDiffChanges snapshot ∅
          = (λ path, {| type := Delete; filePath := path |}) <$> Object_keys snapshot)
    as Hdeleted.
  { rewrite getGlobDiffChanges_loops, Object_keys_empty. simpl. rewrite app_nil_r.
    by apply omap_always_Some. }
  assert (length (Object_keys snapshot) = size snapshot) as Hsize.
  { unfold Object_keys. by rewrite length_fmap, length_map_to_list. }
  split_and!; [done..| |].
  - by rewrite Hcreated, length_fmap.
  - by rewrite Hdeleted, length_fmap.
Qed.

(** ** Of the snapshot builder *)

Section BuilderFurther.
Context `{Collaborators}.

Lemma Promise_all_thrown (alwaysHash : option bool) (previousSnapshot : GlobDiffSnapshot)
    (filePaths : list string) (snapshot : GlobDiffSnapshot) (e : Error) (st st' : State) :
  Promise_all (snapshotFile alwaysHash previousSnapshot) filePaths snapshot st
  = (Thrown e, st') →
  ∃ path, path ∈ filePaths
          ∧ assigned_entry (world st) alwaysHash previousSnapshot path = Thrown e.
Proof.
  revert snapshot st. induction filePaths as [|filePath rest IH]; intros snapshot st.
  - done.
  - simpl. unfold mbind at 1, IO_bind. rewrite snapshotFile_run.
    destruct (assigned_entry (world st) alwaysHash previousSnapshot filePath)
      as [entry|e'] eqn:Hentry.
    + intros (path & Hin & Hpath)%IH. exists path. split; [by right | done].
    + intros [= -> _]. exists filePath. split; [by left | done].
Qed.

Lemma assigned_entry_Returned (w : World) (alwaysHash : option bool)
    (previousSnapshot : GlobDiffSnapshot) (path : string) :
  (∃ entry, assigned_entry w alwaysHash previousSnapshot path = Returned entry)
  ↔ ∃ file, fileSystem w !! path = Some file
      ∧ (reusesPreviousHash alwaysHash previousSnapshot path (file_mtimeMs file) = true
         ∨ file_read_error file = None).
Proof.
  unfold assigned_entry. split.
  - intros [entry Hentry].
    destruct (fileSystem w !! path) as [file|]; [|done]. exists file. split; [done|].
    destruct (reusesPreviousHash _ _ _ _); [by left|]. right.
    by destruct (file_read_error file).
  - intros (file & -> & [-> | Hread]); [eauto|].
    rewrite Hread. destruct (reusesPreviousHash _ _ _ _); eauto.
Qed.

Lemma assigned_entry_Thrown (w : World) (alwaysHash : option bool)
    (previousSnapshot : GlobDiffSnapshot) (path : string) (e : Error) :
  assigned_entry w alwaysHash previousSnapshot path = Thrown e →
  (fileSystem w !! path = None ∧ e = SystemError "ENOENT" "stat" path)
  ∨ ∃ file code,
      fileSystem w !! path = Some file
      ∧ reusesPreviousHash alwaysHash previousSnapshot path (file_mtimeMs file) = false
      ∧ file_read_error file = Some code
      ∧ e = SystemError code "open" path.
Proof.
  unfold assigned_entry. destruct (fileSystem w !! path) as [file|].
  - destruct (reusesPreviousHash _ _ _ _) eqn:Hreuse; [done|].
    destruct (file_read_error file) as [code|] eqn:Hcode; [|done].
    intros [= <-]. right. by exists file, code.
  - intros [= <-]. by left.
Qed.

Lemma getGlobDiffSnapshot_thrown (options : GetGlobDiffSnapshotOptions.t)
    (st st' : State) (e : Error) :
  getGlobDiffSnapshot options st = (Thrown e, st') →
  world st' = world st
  ∧ ∃ path,
      path ∈ filePaths_of options (world st)
      ∧ assigned_entry (world st) (GetGlobDiffSnapshotOptions.alwaysHash options)
          (default ∅ (GetGlobDiffSnapshotOptions.snapshot options)) path
        = Thrown e.
Proof.
  destruct (getGlobDiffSnapshot_run options st) as (st0 & Hworld & _ & ->).
  intros Hrun. split.
  - rewrite <- Hworld. erewrite <- (Promise_all_world _ _ _ _ st0). by rewrite Hrun.
  - apply Promise_all_thrown in Hrun. by rewrite Hworld in Hrun.
Qed.

Lemma getGlobDiffSnapshot_returns (options : GetGlobDiffSnapshotOptions.t) (st : State) :
  (∀ path, path ∈ filePaths_of options (world st) →
     ∃ entry,
       assigned_entry (world st) (GetGlobDiffSnapshotOptions.alwaysHash options)
         (default ∅ (GetGlobDiffSnapshotOptions.snapshot options)) path
       = Returned entry) →
  ∃ next st', getGlobDiffSnapshot options st = (Returned next, st').
Proof.
  intros Hall.
  destruct (getGlobDiffSnapshot_run options st) as (st0 & Hworld & _ & ->).
  apply Promise_all_returns. intros path Hin. rewrite Hworld. by apply Hall.
Qed.

(** X4. The build returns exactly when every path names a file that is
    there and that either keeps its previous hash or can be read: a file
    that cannot be read does not fail the build when its time stamp has
    not moved. Otherwise the build fails, with the error of [stat] for a
    path that is not there or the error of opening a file that cannot be
    read, and the file system is left as it was. *)
Theorem getGlobDiffSnapshot_returns_iff (options : GetGlobDiffSnapshotOptions.t)
    (st : State) :
  let alwaysHash := GetGlobDiffSnapshotOptions.alwaysHash options in
  let previousSnapshot := default ∅ (GetGlobDiffSnapshotOptions.snapshot options) in
  let filePaths := filePaths_of options (world st) in
  ((∃ next st', getGlobDiffSnapshot options st = (Returned next, st'))
   ↔ ∀ path, path ∈ filePaths →
       ∃ file, fileSystem (world st) !! path = Some file
         ∧ (reusesPreviousHash alwaysHash previousSnapshot path (file_mtimeMs file) = true
            ∨ file_read_error file = None))
  ∧ (∀ e st',
       getGlobDiffSnapshot options st = (Thrown e, st') →
       world st' = world st
       ∧ ∃ path, path ∈ filePaths
           ∧ ((fileSystem (world st) !! path = None
               ∧ e = SystemError "ENOENT" "stat" path)
              ∨ ∃ file code,
                  fileSystem (world st) !! path = Some file
                  ∧ reusesPreviousHash alwaysHash previousSnapshot path
                      (file_mtimeMs file) = false
                  ∧ file_read_error file = Some code
                  ∧ e = SystemError code "open" path)).
Proof.
  simpl. split; [split|].
  - intros (next & st' & Hrun) path Hin.
    apply getGlobDiffSnapshot_returned in Hrun as [_ Hnext].
    destruct (Hnext path) as [Hentry _].
    destruct (Hentry Hin) as (entry & Hassigned & _).
    apply assigned_entry_Returned. eauto.
  - intros Hall. apply getGlobDiffSnapshot_returns. intros path Hin.
    apply assigned_entry_Returned. by apply Hall.
  - intros e st' [Hworld (path & Hin & Hthrown)]%getGlobDiffSnapshot_thrown.
    split; [done|]. exists path. split; [done|]. by apply assigned_entry_Thrown.
Qed.

Lemma getGlobDiffSnapshot_dom (options : GetGlobDiffSnapshotOptions.t)
    (st st' : State) (next : GlobDiffSnapshot) (path : string) :
  getGlobDiffSnapshot options st = (Returned next, st') →
  path ∈ dom next ↔ path ∈ filePaths_of options (world st).
Proof.
  intros [_ Hnext]%getGlobDiffSnapshot_returned.
  destruct (Hnext path) as [Hin Hout]. rewrite elem_of_dom. split.
  - intros [entry Hentry].
    destruct (decide (path ∈ filePaths_of options (world st))) as [|Hnot]; [done|].
    by rewrite (Hout Hnot) in Hentry.
  - intros (entry & _ & ->)%Hin. eauto.
Qed.

(** X5. What a build followed by the diff against its previous
    snapshot reports. A path is deleted when the previous snapshot has it
    and it is not among the files; created when it is among the files and
    the previous snapshot does not have it; updated when it is among the
    files, the previous snapshot has it, its time stamp is not the
    recorded one (or [alwaysHash] is set), and the digest of its content
    is not the recorded hash. *)
Theorem getGlobDiffChanges_of_build (options : GetGlobDiffSnapshotOptions.t)
    (st st' : State) (next : GlobDiffSnapshot) (path : string) :
  getGlobDiffSnapshot options st = (Returned next, st') →
  let alwaysHash := GetGlobDiffSnapshotOptions.alwaysHash options in
  let previousSnapshot := default ∅ (GetGlobDiffSnapshotOptions.snapshot options) in
  let filePaths := filePaths_of options (world st) in
  let changes := getGlobDiffChanges previousSnapshot next in
  ({| type := Delete; filePath := path |} ∈ changes
   ↔ path ∈ dom previousSnapshot ∧ path ∉ filePaths)
  ∧ ({| type := Create; filePath := path |} ∈ changes
     ↔ path ∈ filePaths ∧ path ∉ dom previousSnapshot)
  ∧ ({| type := Update; filePath := path |} ∈ changes
     ↔ path ∈ filePaths
       ∧ ∃ previousEntry file,
           previousSnapshot !! path = Some previousEntry
           ∧ fileSystem (world st) !! path = Some file
           ∧ (truthy_bool alwaysHash = true
              ∨ number_strict_eq (mtimeMs previousEntry) (file_mtimeMs file) = false)
           ∧ md5 (file_content file) ≠ hash previousEntry).
Proof.
  intros Hrun alwaysHash previousSnapshot filePaths changes. subst changes.
  pose proof (getGlobDiffSnapshot_dom _ _ _ _ path Hrun) as Hdom.
  fold filePaths in Hdom.
  rewrite !elem_of_getGlobDiffChanges. unfold expected_change. simpl.
  rewrite Hdom. split_and!; [done..|].
  apply getGlobDiffSnapshot_returned in Hrun as [_ Hnext].
  destruct (Hnext path) as [Hin Hout].
  fold alwaysHash previousSnapshot filePaths in Hin, Hout.
  split.
  - intros (a & b & Ha & Hb & Hne).
    assert (path ∈ filePaths) as Hpath.
    { destruct (decide (path ∈ filePaths)) as [|Hnot]; [done|].
      by rewrite (Hout Hnot) in Hb. }
    split; [done|]. destruct (Hin Hpath) as (entry & Hassigned & Hlookup).
    assert (entry = b) as -> by congruence.
    unfold assigned_entry in Hassigned.
    destruct (fileSystem (world st) !! path) as [file|]; [|done].
    exists a, file. rewrite Ha in Hassigned. split_and!; [done..| |].
    + unfold reusesPreviousHash in Hassigned. rewrite Ha in Hassigned.
      destruct (truthy_bool alwaysHash); [by left|]. right. simpl in Hassigned.
      destruct (number_strict_eq _ _); [|done].
      injection Hassigned as <-. by simpl in Hne.
    + destruct (reusesPreviousHash _ _ _ _).
      * injection Hassigned as <-. by simpl in Hne.
      * destruct (file_read_error file); [done|]. injection Hassigned as <-.
        simpl in Hne. congruence.
  - intros (Hpath & a & file & Ha & Hfile & Hmoved & Hdigest).
    destruct (Hin Hpath) as (entry & Hassigned & Hlookup).
    exists a, entry. split_and!; [done..|].
    unfold assigned_entry in Hassigned. rewrite Hfile in Hassigned.
    assert (reusesPreviousHash alwaysHash previousSnapshot path (file_mtimeMs file)
            = false) as Hreuse.
    { unfold reusesPreviousHash. rewrite Ha.
      destruct Hmoved as [->| ->]; [done | by rewrite andb_false_r]. }
    rewrite Hreuse in Hassigned.
    destruct (file_read_error file); [done|]. injection Hassigned as <-.
    simpl. congruence.
Qed.

Lemma Promise_all_ext (f g : string → GlobDiffSnapshot → IO GlobDiffSnapshot)
    (filePaths : list string) (snapshot : GlobDiffSnapshot) (st : State) :
  (∀ path snapshot st, f path snapshot st = g path snapshot st) →
  Promise_all f filePaths snapshot st = Promise_all g filePaths snapshot st.
Proof.
  intros Hext. revert snapshot st.
  induction filePaths as [|filePath rest IH]; intros snapshot st; [done|].
  simpl. unfold mbind, IO_bind. rewrite Hext.
  destruct (g filePath snapshot st) as [[snapshot'|e] st']; [apply IH | done].
Qed.

(** X6. With [alwaysHash] set the previous snapshot plays no part in
    the build: whatever it is, the calls, the outcome and the snapshot
    are the same; every hash of a returned snapshot is the digest of the
    content of the file, and [hashFile] has been called for every path. *)
Theorem getGlobDiffSnapshot_alwaysHash (cwd : option string) (files : option (list string))
    (patterns : option GlobDiffPatterns) (st : State) :
  let options previous :=
    GetGlobDiffSnapshotOptions.mk (Some true) cwd files patterns previous in
  (∀ previous previous',
     getGlobDiffSnapshot (options previous) st = getGlobDiffSnapshot (options previous') st)
  ∧ (∀ previous next st' path,
       getGlobDiffSnapshot (options previous) st = (Returned next, st') →
       path ∈ filePaths_of (options previous) (world st) →
       ∃ file events,
         fileSystem (world st) !! path = Some file
         ∧ next !! path = Some {| hash := md5 (file_content file);
                                  mtimeMs := file_mtimeMs file |}
         ∧ trace st' = trace st ++ events
         ∧ EvHashFile path ∈ events).
Proof.
  simpl. split.
  - intros previous previous'. unfold getGlobDiffSnapshot.
    destruct files as [fileList|]; unfold mbind, mret, IO_bind, IO_ret, globby; simpl.
    all: apply Promise_all_ext; intros path snapshot st1; by rewrite !snapshotFile_run.
  - intros previous next st' path Hrun Hin.
    destruct (getGlobDiffSnapshot_cases _ _ _ _ path Hrun Hin)
      as (file & events & Hfile & Htrace & _ & Hfresh).
    destruct Hfresh as [Hentry Hcalled]; [by intros [[=] _]|].
    by exists file, events.
Qed.

(** X7. The snapshot that a build returns depends on the paths as a
    set: with the same [alwaysHash] and the same previous snapshot, a
    build on the same paths in another order, or with some of them
    repeated, returns too, and returns the same snapshot. *)
Theorem getGlobDiffSnapshot_paths_as_set (options options' : GetGlobDiffSnapshotOptions.t)
    (st st1 : State) (next : GlobDiffSnapshot) :
  GetGlobDiffSnapshotOptions.alwaysHash options'
  = GetGlobDiffSnapshotOptions.alwaysHash options →
  default ∅ (GetGlobDiffSnapshotOptions.snapshot options')
  = default ∅ (GetGlobDiffSnapshotOptions.snapshot options) →
  (∀ path, path ∈ filePaths_of options' (world st) ↔ path ∈ filePaths_of options (world st)) →
  getGlobDiffSnapshot options st = (Returned next, st1) →
  ∃ st2, getGlobDiffSnapshot options' st = (Returned next, st2).
Proof.
  intros HalwaysHash Hprevious Hpaths Hrun.
  apply getGlobDiffSnapshot_returned in Hrun as [_ Hnext].
  destruct (getGlobDiffSnapshot_returns options' st) as (next' & st2 & Hrun').
  { intros path Hin%Hpaths. destruct (Hnext path) as [Hentry _].
    destruct (Hentry Hin) as (entry & Hassigned & _).
    rewrite HalwaysHash, Hprevious. eauto. }
  exists st2. rewrite Hrun'. do 2 f_equal.
  apply getGlobDiffSnapshot_returned in Hrun' as [_ Hnext'].
  apply map_eq. intros path.
  destruct (Hnext path) as [Hin Hout], (Hnext' path) as [Hin' Hout'].
  rewrite HalwaysHash, Hprevious in Hin'.
  destruct (decide (path ∈ filePaths_of options (world st))) as [Hpath|Hpath].
  - destruct (Hin Hpath) as (entry & Hassigned & ->).
    destruct (Hin' (proj2 (Hpaths path) Hpath)) as (entry' & Hassigned' & ->).
    congruence.
  - rewrite (Hout Hpath). rewrite Hout'; [done|]. by rewrite Hpaths.
Qed.

End BuilderFurther.

(** ** Of the operation *)

Section OperationFurther.
Context `{Collaborators}.

(** The three steps of [globDiff] once the previous snapshot is there. *)
Lemma globDiff_with_steps (options : GlobDiffOptions.t)
    (previousSnapshot : GlobDiffSnapshot) (st : State) :
  globDiff_with options previousSnapshot st
  = if negb (truthy_patterns (GlobDiffOptions.patterns options))
       && negb (truthy_files (GlobDiffOptions.files options))
    then (Thrown (ErrorMessage "Either `patterns` or `files` must be provided"), st)
    else
      match getGlobDiffSnapshot (builder_options options (Some previousSnapshot)) st with
      | (Returned next, st1) =>
          let result :=
            GlobDiffResult.mk next (getGlobDiffChanges previousSnapshot next) in
          if bool_decide (GlobDiffOptions.saveSnapshot options ≠ Some false)
          then
            match fs_writeFile (snapshotFilePath_of options) (JSON_stringify next) st1 with
            | (Returned _, st2) => (Returned result, st2)
            | (Thrown e, st2) => (Thrown e, st2)
            end
          else (Returned result, st1)
      | (Thrown e, st1) => (Thrown e, st1)
      end.
Proof.
  unfold globDiff_with, builder_options.
  destruct (negb _ && negb _); [done|].
  unfold mbind, IO_bind.
  destruct (getGlobDiffSnapshot _ st) as [[next|e] st1]; [|done].
  destruct (bool_decide _); [|done].
  by destruct (fs_writeFile _ _ st1) as [[[]|e] st2].
Qed.

Lemma fs_writeFile_thrown (path data : string) (e : Error) (st st' : State) :
  fs_writeFile path data st = (Thrown e, st') →
  world st' = world st
  ∧ ∃ file code,
      fileSystem (world st) !! path = Some file
      ∧ file_write_error file = Some code
      ∧ e = SystemError code "open" path.
Proof.
  unfold fs_writeFile.
  destruct (fileSystem (world st) !! path) as [file|]; simpl; [|done].
  destruct (file_write_error file) as [code|] eqn:Hcode; [|done].
  intros [= <- <-]. split; [done|]. by exists file, code.
Qed.

(** Where a run of [globDiff] stands when the previous snapshot is
    there, or the error it has failed with by then. *)
Lemma globDiff_prelude (patternsOrOptions : PatternsOrOptions)
    (maybeOptions : option GlobDiffOptions.t) (st : State) :
  let options := globDiffOptions patternsOrOptions maybeOptions in
  let supplied := supplied_snapshot options in
  let st_read :=
    {| world := world st;
       trace := trace st ++ [EvReadFile (snapshotFilePath_of options)] |} in
  (truthy supplied = true ∧ isValidGlobDiffSnapshot supplied = false
   ∧ globDiff patternsOrOptions maybeOptions st
     = (Thrown (ErrorMessage "Invalid `glob-diff` snapshot"), st))
  ∨ (truthy supplied = true ∧ isValidGlobDiffSnapshot supplied = true
     ∧ globDiff patternsOrOptions maybeOptions st
       = globDiff_with options (asSnapshot supplied) st)
  ∨ (truthy supplied = false
     ∧ ∃ e, (e = SyntaxError ∨ e = ErrorMessage "Invalid `glob-diff` snapshot file")
            ∧ globDiff patternsOrOptions maybeOptions st = (Thrown e, st_read))
  ∨ (truthy supplied = false
     ∧ ∃ previousSnapshot,
         loadGlobDiffSnapshot (snapshotFilePath_of options) st
         = (Returned previousSnapshot, st_read)
         ∧ globDiff patternsOrOptions maybeOptions st
           = globDiff_with options previousSnapshot st_read).
Proof.
  intros options supplied st_read.
  destruct (truthy supplied) eqn:Htruthy.
  - pose proof (globDiff_supplied patternsOrOptions maybeOptions st) as Hrun.
    simpl in Hrun. fold options supplied in Hrun. rewrite (Hrun Htruthy).
    destruct (isValidGlobDiffSnapshot supplied); [right; left | left]; done.
  - pose proof (globDiff_loads patternsOrOptions maybeOptions st) as Hrun.
    simpl in Hrun. fold options supplied st_read in Hrun. rewrite (Hrun Htruthy).
    rewrite loadGlobDiffSnapshot_run. fold st_read.
    destruct (loaded_from _) as [previousSnapshot|e] eqn:Hloaded.
    + do 3 right. split; [done|]. by exists previousSnapshot.
    + right; right; left. split; [done|]. exists e. split; [|done].
      unfold loaded_from in Hloaded.
      destruct (read_content _ _) as [content|]; [|done].
      destruct (bool_decide _); [done|].
      destruct (JSON_parse content) as [snapshot|]; [|left; congruence].
      destruct (isValidGlobDiffSnapshot snapshot); [done|]. right. congruence.
Qed.

(** How the file system stands after [globDiff_with]. *)
Lemma globDiff_with_world (options : GlobDiffOptions.t)
    (previousSnapshot : GlobDiffSnapshot) (st st' : State) (outcome : Outcome GlobDiffResult.t) :
  globDiff_with options previousSnapshot st = (outcome, st') →
  match outcome with
  | Thrown _ => world st' = world st
  | Returned result =>
      if bool_decide (GlobDiffOptions.saveSnapshot options ≠ Some false)
      then
        world st'
        = {| fileSystem :=
               <[snapshotFilePath_of options :=
                   {| file_content := JSON_stringify (GlobDiffResult.snapshot result);
                      file_mtimeMs := clock (world st);
                      file_read_error :=
                        fileSystem (world st) !! snapshotFilePath_of options
                        ≫= file_read_error;
                      file_write_error := None |}]> (fileSystem (world st));
             clock := clock (world st) |}
        ∧ last (trace st')
          = Some (EvWriteFile (snapshotFilePath_of options)
                    (JSON_stringify (GlobDiffResult.snapshot result)))
      else world st' = world st
  end.
Proof.
  rewrite globDiff_with_steps.
  destruct (negb _ && negb _); [by intros [= <- <-]|].
  destruct (getGlobDiffSnapshot _ st) as [[next|e] st1] eqn:Hbuild.
  - apply getGlobDiffSnapshot_returned in Hbuild as [Hworld _].
    destruct (bool_decide _) eqn:Hsave.
    + destruct (fs_writeFile _ _ st1) as [[[]|e] st2] eqn:Hwrite.
      * intros [= <- <-]. simpl.
        pose proof (fs_writeFile_trace (snapshotFilePath_of options)
                      (JSON_stringify next) st1) as Htrace.
        rewrite Hwrite in Htrace. simpl in Htrace. rewrite Htrace, last_snoc.
        split; [|done].
        unfold fs_writeFile in Hwrite.
        destruct (_ ≫= file_write_error); [done|].
        injection Hwrite as <-. simpl. by rewrite Hworld.
      * intros [= <- <-]. apply fs_writeFile_thrown in Hwrite as [-> _]. done.
    + by intros [= <- <-].
  - intros [= <- <-]. by apply getGlobDiffSnapshot_thrown in Hbuild as [-> _].
Qed.

(** X8. What a run leaves in the file system. A run that fails leaves
    it as it was. A run that returns with [saveSnapshot] set to [false]
    leaves it as it was. A run that returns otherwise has written the
    snapshot file last, the file holds the text of the returned snapshot,
    and every other file is as it was. *)
Theorem globDiff_saves_snapshot (patternsOrOptions : PatternsOrOptions)
    (maybeOptions : option GlobDiffOptions.t) (st st' : State)
    (outcome : Outcome GlobDiffResult.t) :
  globDiff patternsOrOptions maybeOptions st = (outcome, st') →
  let options := globDiffOptions patternsOrOptions maybeOptions in
  let snapshotFilePath := snapshotFilePath_of options in
  match outcome with
  | Thrown _ => world st' = world st
  | Returned result =>
      (∀ path, path ≠ snapshotFilePath →
         fileSystem (world st') !! path = fileSystem (world st) !! path)
      ∧ (GlobDiffOptions.saveSnapshot options = Some false → world st' = world st)
      ∧ (GlobDiffOptions.saveSnapshot options ≠ Some false →
         (∃ file,
            fileSystem (world st') !! snapshotFilePath = Some file
            ∧ file_content file = JSON_stringify (GlobDiffResult.snapshot result))
         ∧ last (trace st')
           = Some (EvWriteFile snapshotFilePath
                     (JSON_stringify (GlobDiffResult.snapshot result))))
  end.
Proof.
  intros Hrun options snapshotFilePath.
  assert (∀ previousSnapshot st0,
            world st0 = world st →
            globDiff_with options previousSnapshot st0 = (outcome, st') →
            match outcome with
            | Thrown _ => world st' = world st
            | Returned result =>
                (∀ path, path ≠ snapshotFilePath →
                   fileSystem (world st') !! path = fileSystem (world st) !! path)
                ∧ (GlobDiffOptions.saveSnapshot options = Some false → world st' = world st)
                ∧ (GlobDiffOptions.saveSnapshot options ≠ Some false →
                   (∃ file,
                      fileSystem (world st') !! snapshotFilePath = Some file
                      ∧ file_content file
                        = JSON_stringify (GlobDiffResult.snapshot result))
                   ∧ last (trace st')
                     = Some (EvWriteFile snapshotFilePath
                               (JSON_stringify (GlobDiffResult.snapshot result))))
            end) as Hwith.
  { intros previousSnapshot st0 Hworld Hwith.
    apply globDiff_with_world in Hwith. rewrite Hworld in Hwith.
    destruct outcome as [result|e]; [|done].
    fold snapshotFilePath in Hwith. case_bool_decide as Hsave.
    - destruct Hwith as [-> Hlast]. simpl. split_and!.
      + intros path Hpath. by rewrite lookup_insert_ne.
      + done.
      + intros _. split; [|done]. eexists. by rewrite lookup_insert_eq.
    - rewrite Hwith. split_and!; [done..|]. intros Hsave'. by destruct Hsave. }
  destruct (globDiff_prelude patternsOrOptions maybeOptions st)
    as [(_ & _ & Heq)|[(_ & _ & Heq)|[(_ & e & _ & Heq)|(_ & previous & _ & Heq)]]];
    fold options in Heq; rewrite Heq in Hrun.
  - by injection Hrun as <- <-.
  - exact (Hwith _ st eq_refl Hrun).
  - by injection Hrun as <- <-.
  - eapply Hwith; [|exact Hrun]. done.
Qed.

(** From the test of [patterns] and [files] on, the only error of the
    program's own is the one of that test. *)
Lemma globDiff_with_config (options : GlobDiffOptions.t)
    (previousSnapshot : GlobDiffSnapshot) (st : State) :
  truthy_patterns (GlobDiffOptions.patterns options) = false →
  truthy_files (GlobDiffOptions.files options) = false →
  globDiff_with options previousSnapshot st
  = (Thrown (ErrorMessage "Either `patterns` or `files` must be provided"), st).
Proof. intros Hpatterns Hfiles. rewrite globDiff_with_steps. by rewrite Hpatterns, Hfiles. Qed.

Lemma globDiff_with_thrown (options : GlobDiffOptions.t)
    (previousSnapshot : GlobDiffSnapshot) (st : State) (e : Error) :
  (globDiff_with options previousSnapshot st).1 = Thrown e →
  (e = ErrorMessage "Either `patterns` or `files` must be provided"
   ∧ truthy_patterns (GlobDiffOptions.patterns options) = false
   ∧ truthy_files (GlobDiffOptions.files options) = false)
  ∨ ∃ code syscall path, e = SystemError code syscall path.
Proof.
  rewrite globDiff_with_steps.
  destruct (negb _ && negb _) eqn:Hgiven.
  { intros [= <-]. left.
    by apply andb_true_iff in Hgiven as [?%negb_true_iff ?%negb_true_iff]. }
  destruct (getGlobDiffSnapshot _ st) as [[next|e'] st1] eqn:Hbuild.
  - case_bool_decide as Hsave; [|done].
    destruct (fs_writeFile _ _ st1) as [[[]|e'] st2] eqn:Hwrite; [done|].
    intros [= ->]. apply fs_writeFile_thrown in Hwrite as (_ & file & code & _ & _ & ->).
    right. by eexists _, _, _.
  - intros [= ->].
    apply getGlobDiffSnapshot_thrown in Hbuild as (_ & path & _ & Hthrown).
    apply assigned_entry_Thrown in Hthrown as [[_ ->]|(file & code & _ & _ & _ & ->)];
      right; by eexists _, _, _.
Qed.

(** X9. When a run fails with an error of the program's own, and which
    comes first. It fails with [Invalid `glob-diff` snapshot] exactly
    when [options.snapshot] is truthy and not valid, and then before any
    call. It fails with a [SyntaxError] exactly when [options] carries
    no truthy snapshot and the snapshot file is read, is not empty, and
    has a text that [JSON.parse] rejects; with
    [Invalid `glob-diff` snapshot file] exactly when that text is parsed
    to a value that is not valid. It fails with
    [Either `patterns` or `files` must be provided] exactly when neither
    is truthy and none of the errors before has come up: a snapshot that
    is not valid, in [options] or in the file, is reported first. *)
Theorem globDiff_own_errors (patternsOrOptions : PatternsOrOptions)
    (maybeOptions : option GlobDiffOptions.t) (st : State) :
  let options := globDiffOptions patternsOrOptions maybeOptions in
  let supplied := supplied_snapshot options in
  let read := read_content (world st) (snapshotFilePath_of options) in
  let run := globDiff patternsOrOptions maybeOptions st in
  (run.1 = Thrown (ErrorMessage "Invalid `glob-diff` snapshot")
   ↔ truthy supplied = true ∧ isValidGlobDiffSnapshot supplied = false)
  ∧ (truthy supplied = true ∧ isValidGlobDiffSnapshot supplied = false → run.2 = st)
  ∧ (run.1 = Thrown SyntaxError
     ↔ truthy supplied = false
       ∧ ∃ content, read = Returned content ∧ content ≠ ""
                    ∧ JSON_parse content = None)
  ∧ (run.1 = Thrown (ErrorMessage "Invalid `glob-diff` snapshot file")
     ↔ truthy supplied = false
       ∧ ∃ content snapshot, read = Returned content ∧ content ≠ ""
                             ∧ JSON_parse content = Some snapshot
                             ∧ isValidGlobDiffSnapshot snapshot = false)
  ∧ (run.1 = Thrown (ErrorMessage "Either `patterns` or `files` must be provided")
     ↔ truthy_patterns (GlobDiffOptions.patterns options) = false
       ∧ truthy_files (GlobDiffOptions.files options) = false
       ∧ ((truthy supplied = true ∧ isValidGlobDiffSnapshot supplied = true)
          ∨ (truthy supplied = false
             ∧ ∃ previousSnapshot, loaded_from read = Returned previousSnapshot))).
Proof.
  intros options supplied read run.
  assert (∀ previousSnapshot st0,
            (globDiff_with options previousSnapshot st0).1
            = Thrown (ErrorMessage "Either `patterns` or `files` must be provided")
            ↔ truthy_patterns (GlobDiffOptions.patterns options) = false
              ∧ truthy_files (GlobDiffOptions.files options) = false) as Hconfig.
  { intros previousSnapshot st0. split.
    - intros [(_ & ? & ?)|(? & ? & ? & [=])]%globDiff_with_thrown. done.
    - intros [Hpatterns Hfiles]. by rewrite globDiff_with_config. }
  assert (∀ previousSnapshot st0 e,
            (globDiff_with options previousSnapshot st0).1 = Thrown e →
            e ≠ ErrorMessage "Invalid `glob-diff` snapshot"
            ∧ e ≠ SyntaxError
            ∧ e ≠ ErrorMessage "Invalid `glob-diff` snapshot file") as Hother.
  { intros previousSnapshot st0 e [(-> & _)|(? & ? & ? & ->)]%globDiff_with_thrown;
      by split_and!. }
  destruct (truthy supplied) eqn:Htruthy.
  - pose proof (globDiff_supplied patternsOrOptions maybeOptions st) as Hrun.
    simpl in Hrun. fold options supplied run in Hrun. specialize (Hrun Htruthy).
    destruct (isValidGlobDiffSnapshot supplied) eqn:Hvalid; rewrite Hrun; simpl.
    + split_and!.
      * split; [|by intros [_ [=]]]. by intros [? _]%Hother.
      * by intros [_ [=]].
      * split; [|by intros [[=] _]]. by intros (_ & ? & _)%Hother.
      * split; [|by intros [[=] _]]. by intros (_ & _ & ?)%Hother.
      * rewrite Hconfig. split; [intros [? ?]; split_and!; [done..|by left]|].
        by intros (? & ? & _).
    + split_and!; [done|done|..]; (split; [done|]).
      * by intros [[=] _].
      * by intros [[=] _].
      * by intros (_ & _ & [[_ [=]]|[[=] _]]).
  - pose proof (globDiff_loads patternsOrOptions maybeOptions st) as Hrun.
    simpl in Hrun. fold options supplied read run in Hrun. specialize (Hrun Htruthy).
    rewrite Hrun. clear Hrun. unfold loaded_from.
    destruct read as [content|readError];
      [case_bool_decide as Hempty;
         [|destruct (JSON_parse content) as [snapshot|] eqn:Hparse;
           [destruct (isValidGlobDiffSnapshot snapshot) eqn:Hvalid|]]|];
      simpl; split_and!; try rewrite Hconfig.
    all: try by intros [[=] _].
    all: try by (split; [by intros (_ & _ & ?)%Hother|];
                 intros (_ & ? & ? & [= <-] & _ & Hp & Hv); congruence).
    all: split; [intros Hthrown; try apply Hother in Hthrown|]; naive_solver.
Qed.

Lemma getGlobDiffSnapshot_start (options : GetGlobDiffSnapshotOptions.t) (st : State) :
  getGlobDiffSnapshot options st
  = Promise_all
      (snapshotFile (GetGlobDiffSnapshotOptions.alwaysHash options)
         (default ∅ (GetGlobDiffSnapshotOptions.snapshot options)))
      (filePaths_of options (world st)) ∅
      {| world := world st;
         trace :=
           trace st
           ++ match GetGlobDiffSnapshotOptions.files options with
              | Some _ => []
              | None =>
                  [EvGlobby (patterns_or_empty
                               (GetGlobDiffSnapshotOptions.patterns options))]
              end |}.
Proof.
  unfold getGlobDiffSnapshot, filePaths_of. unfold_io.
  destruct (GetGlobDiffSnapshotOptions.files options); simpl; [|done].
  rewrite app_nil_r. by destruct st.
Qed.

Lemma calls_for_events (w : World) (alwaysHash : option bool)
    (previousSnapshot : GlobDiffSnapshot) (filePath : string) (ev : Event) :
  ev ∈ calls_for w alwaysHash previousSnapshot filePath →
  ev = EvStat filePath ∨ ev = EvHashFile filePath.
Proof.
  unfold calls_for. destruct (fileSystem w !! filePath) as [file|].
  - destruct (reusesPreviousHash _ _ _ _).
    + intros ->%list_elem_of_singleton. by left.
    + intros [->| ->%list_elem_of_singleton]%elem_of_cons; [by left | by right].
  - intros ->%list_elem_of_singleton. by left.
Qed.

(** The calls of a run from the test of [patterns] and [files] on:
    [globby] at most once and only without [files], then [stat] and
    [hashFile] on the paths, then at most one write, of the snapshot
    file. *)
Lemma globDiff_with_calls (options : GlobDiffOptions.t)
    (previousSnapshot : GlobDiffSnapshot) (st : State) :
  ∃ globs calls writes,
    trace (globDiff_with options previousSnapshot st).2
    = trace st ++ globs ++ calls ++ writes
    ∧ (globs = []
       ∨ globs = [EvGlobby (patterns_or_empty (GlobDiffOptions.patterns options))]
         ∧ GlobDiffOptions.files options = None)
    ∧ (∀ ev, ev ∈ calls →
         ∃ path, path ∈ filePaths_of (builder_options options None) (world st)
                 ∧ (ev = EvStat path ∨ ev = EvHashFile path))
    ∧ (writes = []
       ∨ ∃ data, writes = [EvWriteFile (snapshotFilePath_of options) data]
                 ∧ GlobDiffOptions.saveSnapshot options ≠ Some false).
Proof.
  rewrite globDiff_with_steps.
  destruct (negb _ && negb _).
  { exists [], [], []. simpl. rewrite app_nil_r.
    split_and!; [done|by left|by intros ? ?%elem_of_nil|by left]. }
  rewrite getGlobDiffSnapshot_start. simpl.
  set (globs := match GlobDiffOptions.files options with
                | Some _ => []
                | None => [EvGlobby (patterns_or_empty (GlobDiffOptions.patterns options))]
                end).
  set (st0 := {| world := world st; trace := trace st ++ globs |}).
  assert (globs = []
          ∨ globs = [EvGlobby (patterns_or_empty (GlobDiffOptions.patterns options))]
            ∧ GlobDiffOptions.files options = None) as Hglobs.
  { subst globs. destruct (GlobDiffOptions.files options); [by left | by right]. }
  edestruct (Promise_all_trace (GlobDiffOptions.alwaysHash options) previousSnapshot
               (filePaths_of (builder_options options (Some previousSnapshot)) (world st))
               ∅ st0) as (calls & Htrace & Hcalls).
  assert (∀ ev, ev ∈ calls →
            ∃ path, path ∈ filePaths_of (builder_options options None) (world st)
                    ∧ (ev = EvStat path ∨ ev = EvHashFile path)) as Hcalls'.
  { intros ev (path & Hin & Hev)%Hcalls. exists path. split; [done|].
    by apply calls_for_events in Hev. }
  destruct (Promise_all _ _ _ st0) as [[next|e] st1]; simpl in Htrace.
  - case_bool_decide as Hsave.
    + pose proof (fs_writeFile_trace (snapshotFilePath_of options)
                    (JSON_stringify next) st1) as Hwrite.
      destruct (fs_writeFile _ _ st1) as [[[]|e] st2]; simpl in *.
      all: exists globs, calls,
             [EvWriteFile (snapshotFilePath_of options) (JSON_stringify next)].
      all: rewrite Hwrite, Htrace; simpl; rewrite <- !app_assoc.
      all: split_and!; [done..|]; right; by eexists.
    + exists globs, calls, []. simpl. rewrite Htrace, app_nil_r, <- app_assoc.
      split_and!; [done..|by left].
  - exists globs, calls, []. simpl. rewrite Htrace, app_nil_r, <- app_assoc.
    split_and!; [done..|by left].
Qed.

(** X10. The calls of a run, in their order: at most one read, of the
    snapshot file and only when [options] carries no snapshot; then
    [globby], at most once and only when [options] has no [files]; then
    [stat] and [hashFile], on the resolved paths only; then at most one
    write, of the snapshot file and only when saving is not turned off.
    A run makes no other call: it writes no other file, and reads none
    but through [hashFile]. *)
Theorem globDiff_calls (patternsOrOptions : PatternsOrOptions)
    (maybeOptions : option GlobDiffOptions.t) (st : State) :
  let options := globDiffOptions patternsOrOptions maybeOptions in
  let snapshotFilePath := snapshotFilePath_of options in
  ∃ reads globs calls writes,
    trace (globDiff patternsOrOptions maybeOptions st).2
    = trace st ++ reads ++ globs ++ calls ++ writes
    ∧ (reads = []
       ∨ reads = [EvReadFile snapshotFilePath]
         ∧ truthy (supplied_snapshot options) = false)
    ∧ (globs = []
       ∨ globs = [EvGlobby (patterns_or_empty (GlobDiffOptions.patterns options))]
         ∧ GlobDiffOptions.files options = None)
    ∧ (∀ ev, ev ∈ calls →
         ∃ path, path ∈ filePaths_of (builder_options options None) (world st)
                 ∧ (ev = EvStat path ∨ ev = EvHashFile path))
    ∧ (writes = []
       ∨ ∃ data, writes = [EvWriteFile snapshotFilePath data]
                 ∧ GlobDiffOptions.saveSnapshot options ≠ Some false).
Proof.
  intros options snapshotFilePath.
  destruct (globDiff_prelude patternsOrOptions maybeOptions st)
    as [(_ & _ & Heq)|[(_ & _ & Heq)|[(Ht & e & _ & Heq)|(Ht & previous & _ & Heq)]]];
    fold options snapshotFilePath in Heq; rewrite Heq.
  - exists [], [], [], []. simpl. rewrite app_nil_r.
    split_and!; [done|by left|by left|by intros ? ?%elem_of_nil|by left].
  - destruct (globDiff_with_calls options (asSnapshot (supplied_snapshot options)) st)
      as (globs & calls & writes & Htrace & ? & ? & ?).
    exists [], globs, calls, writes. split_and!; [done|by left|done..].
  - exists [EvReadFile snapshotFilePath], [], [], []. simpl.
    split_and!; [done|by right|by left|by intros ? ?%elem_of_nil|by left].
  - edestruct (globDiff_with_calls options previous)
      as (globs & calls & writes & Htrace & ? & ? & ?).
    exists [EvReadFile snapshotFilePath], globs, calls, writes.
    rewrite Htrace. simpl. rewrite <- app_assoc.
    split_and!; [done|by right|done..].
Qed.

(** X11. The [cwd] of the options has no effect: whatever it is, a run
    resolves the same paths, makes the same calls and has the same
    outcome. *)
Theorem globDiff_ignores_cwd (cwd : option string) (o : GlobDiffOptions.t)
    (maybeOptions : option GlobDiffOptions.t) (p : GlobDiffPatterns) (st : State) :
  globDiff (inr (set_cwd cwd o)) maybeOptions st = globDiff (inr o) maybeOptions st
  ∧ globDiff (inl p) (Some (set_cwd cwd o)) st = globDiff (inl p) (Some o) st
  ∧ ∀ (alwaysHash : option bool) (files : option (list string))
      (patterns : option GlobDiffPatterns) (previous : option GlobDiffSnapshot)
      (cwd' : option string),
      getGlobDiffSnapshot
        (GetGlobDiffSnapshotOptions.mk alwaysHash cwd files patterns previous) st
      = getGlobDiffSnapshot
          (GetGlobDiffSnapshotOptions.mk alwaysHash cwd' files patterns previous) st.
Proof. split_and!; reflexivity. Qed.

Lemma globDiff_with_files (patterns : option GlobDiffPatterns) (o : GlobDiffOptions.t)
    (fileList : list string) (previousSnapshot : GlobDiffSnapshot) (st : State) :
  GlobDiffOptions.files o = Some fileList →
  globDiff_with (set_patterns patterns o) previousSnapshot st
  = globDiff_with o previousSnapshot st.
Proof.
  intros Hfiles. unfold globDiff_with, getGlobDiffSnapshot, set_patterns. simpl.
  rewrite Hfiles. simpl. by rewrite !andb_false_r.
Qed.

(** X12. When [options] has [files], its [patterns] play no part:
    whatever they are, also absent, a run makes the same calls and has
    the same outcome, and [globby] is not called. *)
Theorem globDiff_files_replace_patterns (patterns : option GlobDiffPatterns)
    (o : GlobDiffOptions.t) (maybeOptions : option GlobDiffOptions.t)
    (fileList : list string) (st : State) :
  GlobDiffOptions.files o = Some fileList →
  globDiff (inr (set_patterns patterns o)) maybeOptions st
  = globDiff (inr o) maybeOptions st
  ∧ ∃ events,
      trace (globDiff (inr o) maybeOptions st).2 = trace st ++ events
      ∧ ∀ ev, ev ∈ events → ∀ globbed, ev ≠ EvGlobby globbed.
Proof.
  intros Hfiles. split.
  - rewrite !globDiff_unfold. simpl.
    change (supplied_snapshot (set_patterns patterns o)) with (supplied_snapshot o).
    change (snapshotFilePath_of (set_patterns patterns o)) with (snapshotFilePath_of o).
    destruct (truthy (supplied_snapshot o) && _); [done|].
    unfold mbind, IO_bind.
    destruct (if negb (truthy (supplied_snapshot o)) then _ else _) as [[previous|e] st0];
      [|done].
    by apply globDiff_with_files with fileList.
  - destruct (globDiff_prelude (inr o) maybeOptions st)
      as [(_ & _ & Heq)|[(_ & _ & Heq)|[(_ & e & _ & Heq)|(_ & previous & _ & Heq)]]];
      simpl in Heq; rewrite Heq.
    + exists []. split; [by rewrite app_nil_r | by intros ? ?%elem_of_nil].
    + destruct (globDiff_with_calls o (asSnapshot (supplied_snapshot o)) st)
        as (globs & calls & writes & -> & [->|[_ Hnone]] & Hcalls & Hwrites);
        [|congruence].
      exists (calls ++ writes). split; [done|].
      intros ev [(path & _ & [->| ->])%Hcalls|Hev]%elem_of_app globbed; [done..|].
      destruct Hwrites as [->|(data & -> & _)]; [by apply elem_of_nil in Hev|].
      by apply list_elem_of_singleton in Hev as ->.
    + eexists. split; [done|]. by intros ev ->%list_elem_of_singleton.
    + edestruct (globDiff_with_calls o previous)
        as (globs & calls & writes & -> & [->|[_ Hnone]] & Hcalls & Hwrites);
        [|congruence].
      simpl. exists ([EvReadFile (snapshotFilePath_of o)] ++ calls ++ writes).
      split; [by rewrite <- app_assoc|].
      intros ev [->%list_elem_of_singleton|Hev]%elem_of_app globbed; [done|].
      apply elem_of_app in Hev as [(path & _ & [->| ->])%Hcalls|Hev]; [done..|].
      destruct Hwrites as [->|(data & -> & _)]; [by apply elem_of_nil in Hev|].
      by apply list_elem_of_singleton in Hev as ->.
Qed.

(** X13. An empty string is as good as nothing: with the empty string
    for [patterns] a run does what it does with no [patterns] at all (so
    it fails unless [files] is there), and with the empty string for
    [snapshotFilePath] it uses the default file name. *)
Theorem globDiff_empty_strings (o : GlobDiffOptions.t)
    (maybeOptions : option GlobDiffOptions.t) (st : State) :
  globDiff (inr (set_patterns (Some (PatternString "")) o)) maybeOptions st
  = globDiff (inr (set_patterns None o)) maybeOptions st
  ∧ globDiff (inl (PatternString "")) None st
    = globDiff (inr (GlobDiffOptions.mk None None None None None None None)) None st
  ∧ globDiff (inr (set_snapshotFilePath (Some "") o)) maybeOptions st
    = globDiff (inr (set_snapshotFilePath None o)) maybeOptions st
  ∧ snapshotFilePath_of (set_snapshotFilePath (Some "") o)
    = path_resolve defaultGlobDiffSnapshotFileName.
Proof. split_and!; reflexivity. Qed.

Lemma asFileSnapshot_value (fileSnapshot : GlobDiffFileSnapshot) :
  asFileSnapshot (fileSnapshot_value fileSnapshot) = Some fileSnapshot.
Proof. by destruct fileSnapshot. Qed.

Lemma isInvalidEntry_value (filePath : string) (fileSnapshot : GlobDiffFileSnapshot) :
  isInvalidEntry (filePath, fileSnapshot_value fileSnapshot) = false.
Proof. reflexivity. Qed.

Lemma isValidGlobDiffSnapshot_value (snapshot : GlobDiffSnapshot) :
  isValidGlobDiffSnapshot (snapshot_value snapshot) = true.
Proof.
  unfold isValidGlobDiffSnapshot, snapshot_value. simpl.
  destruct (forallb _ _) eqn:Hall; [done|].
  apply forallb_false in Hall as (entry & Hin & Hentry).
  apply list_elem_of_fmap in Hin as ([path fileSnapshot] & -> & _).
  change (negb (isInvalidEntry (path, fileSnapshot_value fileSnapshot)) = false)
    in Hentry.
  by rewrite isInvalidEntry_value in Hentry.
Qed.

Lemma omap_fmap_Some {A B : Type} (f : B → option A) (g : A → B) (l : list A) :
  (∀ x, f (g x) = Some x) → omap f (g <$> l) = l.
Proof.
  intros Hfg. induction l as [|x l IH]; [done|].
  simpl. rewrite Hfg. by f_equal.
Qed.

Lemma asSnapshot_value (snapshot : GlobDiffSnapshot) :
  asSnapshot (snapshot_value snapshot) = snapshot.
Proof.
  unfold asSnapshot, snapshot_value. simpl.
  rewrite omap_fmap_Some; [apply list_to_map_to_list|].
  by intros [path []].
Qed.

(** X14. A snapshot that the program has built is one that it accepts:
    as a value it passes validation and is truthy, and is read back as
    the snapshot it is. So passed in [options.snapshot] it is taken for
    the previous snapshot, with no file read; and a snapshot file whose
    text [JSON.parse] reads as that value loads as that snapshot. *)
Theorem snapshot_value_accepted (snapshot : GlobDiffSnapshot) :
  isValidGlobDiffSnapshot (snapshot_value snapshot) = true
  ∧ truthy (snapshot_value snapshot) = true
  ∧ asSnapshot (snapshot_value snapshot) = snapshot
  ∧ (∀ patternsOrOptions maybeOptions st,
       GlobDiffOptions.snapshot (globDiffOptions patternsOrOptions maybeOptions)
       = Some (snapshot_value snapshot) →
       globDiff patternsOrOptions maybeOptions st
       = globDiff_with (globDiffOptions patternsOrOptions maybeOptions) snapshot st)
  ∧ (∀ snapshotFilePath file st,
       fileSystem (world st) !! snapshotFilePath = Some file →
       file_read_error file = None →
       file_content file ≠ "" →
       JSON_parse (file_content file) = Some (snapshot_value snapshot) →
       loadGlobDiffSnapshot snapshotFilePath st
       = (Returned snapshot,
          {| world := world st; trace := trace st ++ [EvReadFile snapshotFilePath] |})).
Proof.
  split_and!.
  - apply isValidGlobDiffSnapshot_value.
  - done.
  - apply asSnapshot_value.
  - intros patternsOrOptions maybeOptions st Hsupplied.
    pose proof (globDiff_supplied patternsOrOptions maybeOptions st) as Hrun.
    simpl in Hrun. unfold supplied_snapshot in Hrun. rewrite Hsupplied in Hrun.
    simpl in Hrun. rewrite Hrun by done.
    by rewrite isValidGlobDiffSnapshot_value, asSnapshot_value.
  - intros snapshotFilePath file st Hfile Hreadable Hcontent Hparse.
    rewrite loadGlobDiffSnapshot_run. unfold read_content, loaded_from.
    rewrite Hfile, Hreadable, bool_decide_eq_false_2 by done.
    by rewrite Hparse, isValidGlobDiffSnapshot_value, asSnapshot_value.
Qed.

(** X15. The snapshot of one run handed to the next. When a run has
    returned, the same options with its snapshot in [options.snapshot]
    make a run that returns an empty list of changes and reads no
    snapshot file, provided the paths are the same and the files at them
    have not changed (which, when the first run has saved its snapshot,
    asks that the snapshot file is not one of them). *)
Theorem globDiff_with_returned_snapshot (patternsOrOptions : PatternsOrOptions)
    (maybeOptions : option GlobDiffOptions.t) (st st1 : State)
    (result : GlobDiffResult.t) :
  let options := globDiffOptions patternsOrOptions maybeOptions in
  let filePaths w := filePaths_of (builder_options options None) w in
  globDiff patternsOrOptions maybeOptions st = (Returned result, st1) →
  filePaths (world st1) = filePaths (world st) →
  (GlobDiffOptions.saveSnapshot options = Some false
   ∨ snapshotFilePath_of options ∉ filePaths (world st)) →
  ∃ result' st2 events,
    globDiff
      (inr (set_snapshot (Some (snapshot_value (GlobDiffResult.snapshot result))) options))
      None st1
    = (Returned result', st2)
    ∧ GlobDiffResult.changes result' = []
    ∧ dom (GlobDiffResult.snapshot result') = dom (GlobDiffResult.snapshot result)
    ∧ trace st2 = trace st1 ++ events
    ∧ ∀ path, EvReadFile path ∉ events.
Proof.
  intros options filePaths Hfirst Hsameset Hunchanged.
  assert (∃ previous st0,
            world st0 = world st
            ∧ globDiff_with options previous st0 = (Returned result, st1))
    as (previous & st0 & Hworld0 & Hwith).
  { destruct (globDiff_prelude patternsOrOptions maybeOptions st)
      as [(_ & _ & Heq)|[(_ & _ & Heq)|[(_ & e & _ & Heq)|(_ & previous & _ & Heq)]]];
      fold options in Heq; rewrite Heq in Hfirst; try done.
    - exists (asSnapshot (supplied_snapshot options)), st. by split.
    - eexists previous, _. split; [|exact Hfirst]. done. }
  pose proof (globDiff_with_world _ _ _ _ _ Hwith) as Hworld1. simpl in Hworld1.
  rewrite Hworld0 in Hworld1.
  rewrite globDiff_with_steps in Hwith.
  destruct (negb _ && negb _) eqn:Hgiven; [done|].
  destruct (getGlobDiffSnapshot _ st0) as [[next|e] sb] eqn:Hbuild; [|done].
  assert (GlobDiffResult.snapshot result = next) as Hnext.
  { case_bool_decide; [|by injection Hwith as <- _].
    destruct (fs_writeFile _ _ sb) as [[[]|e] sw]; [|done]. by injection Hwith as <- _. }
  clear Hwith.
  assert (∀ path, path ∈ filePaths (world st) →
            fileSystem (world st1) !! path = fileSystem (world st) !! path) as Hfiles.
  { intros path Hin. case_bool_decide as Hsave.
    - destruct Hworld1 as [-> _]. simpl. apply lookup_insert_ne.
      intros <-. destruct Hunchanged as [?|Hnot]; [done | by apply Hnot].
    - by rewrite Hworld1. }
  rewrite Hnext in *. clear Hnext.
  set (options' := set_snapshot (Some (snapshot_value next)) options).
  destruct (getGlobDiffSnapshot_again _ st0 sb st1 next Hbuild)
    as (next' & sb' & events & Hbuild' & Hdom & _ & Hchanges & Htrace & _).
  { by rewrite Hworld0. }
  { intros path Hin. rewrite Hworld0 in *. by apply Hfiles. }
  pose proof (getGlobDiffSnapshot_returned _ _ _ _ Hbuild') as [Hworldb' _].
  pose proof (getGlobDiffSnapshot_trace
                (builder_options options' (Some next)) st1) as (events' & Htrace' & Hnoread).
  change (builder_options options' (Some next))
    with (GetGlobDiffSnapshotOptions.mk
            (GetGlobDiffSnapshotOptions.alwaysHash (builder_options options (Some previous)))
            (GetGlobDiffSnapshotOptions.cwd (builder_options options (Some previous)))
            (GetGlobDiffSnapshotOptions.files (builder_options options (Some previous)))
            (GetGlobDiffSnapshotOptions.patterns (builder_options options (Some previous)))
            (Some next)) in Htrace'.
  rewrite Hbuild' in Htrace'. simpl in Htrace'.
  pose proof (globDiff_supplied (inr options') None st1) as Hsecond.
  simpl in Hsecond. rewrite (Hsecond eq_refl). clear Hsecond.
  change (supplied_snapshot options') with (snapshot_value next).
  rewrite isValidGlobDiffSnapshot_value, asSnapshot_value, globDiff_with_steps.
  change (GlobDiffOptions.patterns options') with (GlobDiffOptions.patterns options).
  change (GlobDiffOptions.files options') with (GlobDiffOptions.files options).
  change (GlobDiffOptions.saveSnapshot options')
    with (GlobDiffOptions.saveSnapshot options).
  change (snapshotFilePath_of options') with (snapshotFilePath_of options).
  rewrite Hgiven.
  change (builder_options options' (Some next))
    with (GetGlobDiffSnapshotOptions.mk
            (GetGlobDiffSnapshotOptions.alwaysHash (builder_options options (Some previous)))
            (GetGlobDiffSnapshotOptions.cwd (builder_options options (Some previous)))
            (GetGlobDiffSnapshotOptions.files (builder_options options (Some previous)))
            (GetGlobDiffSnapshotOptions.patterns (builder_options options (Some previous)))
            (Some next)).
  rewrite Hbuild'. simpl. rewrite Hchanges.
  case_bool_decide as Hsave.
  - destruct (fs_writeFile_returns (snapshotFilePath_of options)
                (JSON_stringify next') sb') as [st2 Hwrite].
    { rewrite Hworldb'. simpl. destruct Hworld1 as [-> _]. simpl.
      by rewrite lookup_insert_eq. }
    pose proof (fs_writeFile_trace (snapshotFilePath_of options)
                  (JSON_stringify next') sb') as Hwritten.
    rewrite Hwrite in Hwritten |- *. simpl in Hwritten.
    eexists _, st2, _. split_and!; [done..| |].
    + by rewrite Hwritten, Htrace', <- app_assoc.
    + intros path [?%Hnoread|[=]%list_elem_of_singleton]%elem_of_app. done.
  - eexists _, sb', _. split_and!; [done..|]. apply Hnoread.
Qed.

End OperationFurther.

(** ** The further properties at work *)

(** X5 at work: [/work/a.js] has the hash [old] on record, and with
    [alwaysHash] set its content is hashed again and found changed. *)
Lemma getGlobDiffChanges_of_build_witness :
  let options :=
    GetGlobDiffSnapshotOptions.mk (Some true) None (Some ["a.js"]) None
      (Some Demo.stale_a) in
  let next : GlobDiffSnapshot :=
    {[ "/work/a.js" := {| hash := "md5(let a)"; mtimeMs := 1000.5 |} ]} in
  (getGlobDiffSnapshot options (Demo.start Demo.two_files)).1 = Returned next
  ∧ {| type := Update; filePath := "/work/a.js" |}
    ∈ getGlobDiffChanges Demo.stale_a next.
Proof.
  simpl. split; [vm_compute; reflexivity|].
  pose proof (getGlobDiffChanges_of_build
                (GetGlobDiffSnapshotOptions.mk (Some true) None (Some ["a.js"]) None
                   (Some Demo.stale_a))
                (Demo.start Demo.two_files)
                (getGlobDiffSnapshot
                   (GetGlobDiffSnapshotOptions.mk (Some true) None (Some ["a.js"]) None
                      (Some Demo.stale_a))
                   (Demo.start Demo.two_files)).2
                {[ "/work/a.js" := {| hash := "md5(let a)"; mtimeMs := 1000.5 |} ]}
                "/work/a.js") as Hbuild.
  destruct Hbuild as (_ & _ & Hupdate); [vm_compute; reflexivity|].
  apply Hupdate. split; [apply (bool_decide_unpack _); vm_compute; reflexivity|].
  exists {| hash := "old"; mtimeMs := 1000.5 |}, (Demo.regular "let a" 1000.5).
  split_and!; [vm_compute; reflexivity..|by left|vm_compute; discriminate].
Defined.

(** X7 at work: the same two files, named in another order and one of
    them twice. *)
Lemma getGlobDiffSnapshot_paths_as_set_witness :
  ∃ st2,
    getGlobDiffSnapshot
      (GetGlobDiffSnapshotOptions.mk None None (Some ["b.js"; "a.js"; "/work/a.js"]) None
         (Some Demo.stale_a_and_gone))
      (Demo.start Demo.two_files)
    = (Returned Demo.built_both, st2).
Proof.
  eapply (getGlobDiffSnapshot_paths_as_set Demo.build_both
            (GetGlobDiffSnapshotOptions.mk None None (Some ["b.js"; "a.js"; "/work/a.js"])
               None (Some Demo.stale_a_and_gone))
            (Demo.start Demo.two_files)).
  - reflexivity.
  - reflexivity.
  - intros path. vm_compute filePaths_of.
    rewrite !elem_of_cons, !elem_of_nil. tauto.
  - vm_compute. reflexivity.
Defined.

(** X8 at work: after a first run on the two files the snapshot file
    holds the text of the snapshot. *)
Lemma globDiff_saves_snapshot_witness :
  ∃ file,
    fileSystem (world (globDiff (inl Demo.both_files) None (Demo.start Demo.two_files)).2)
      !! "/work/.glob-diff.json"
    = Some file
    ∧ file_content file = Demo.stringify Demo.first_snapshot.
Proof.
  pose proof (globDiff_saves_snapshot (inl Demo.both_files) None
                (Demo.start Demo.two_files)
                (globDiff (inl Demo.both_files) None (Demo.start Demo.two_files)).2
                (Returned
                   (GlobDiffResult.mk Demo.first_snapshot
                      [ {| type := Create; filePath := "/work/a.js" |};
                        {| type := Create; filePath := "/work/b.js" |} ]))) as Hsaved.
  destruct Hsaved as (_ & _ & Hfile); [vm_compute; reflexivity|].
  destruct Hfile as [Hfile _]; [discriminate|]. exact Hfile.
Defined.

(** X12 at work: [files] with patterns that match nothing of them. *)
Lemma globDiff_files_replace_patterns_witness :
  let o := GlobDiffOptions.mk None None None (Some ["a.js"]) None None None in
  globDiff (inr (set_patterns (Some (PatternString "/work/b.js")) o)) None
    (Demo.start Demo.two_files)
  = globDiff (inr o) None (Demo.start Demo.two_files)
  ∧ ∃ events,
      trace (globDiff (inr o) None (Demo.start Demo.two_files)).2 = [] ++ events
      ∧ ∀ ev, ev ∈ events → ∀ globbed, ev ≠ EvGlobby globbed.
Proof.
  cbv zeta.
  apply (globDiff_files_replace_patterns (Some (PatternString "/work/b.js"))
           (GlobDiffOptions.mk None None None (Some ["a.js"]) None None None) None
           ["a.js"] (Demo.start Demo.two_files)).
  reflexivity.
Defined.

(** X15 at work: the snapshot of a first run on the two files, handed
    to a second run. *)
Lemma globDiff_with_returned_snapshot_witness :
  ∃ result' st2 events,
    globDiff
      (inr (set_snapshot (Some (snapshot_value Demo.first_snapshot))
              (globDiffOptions (inl Demo.both_files) None)))
      None (globDiff (inl Demo.both_files) None (Demo.start Demo.two_files)).2
    = (Returned result', st2)
    ∧ GlobDiffResult.changes result' = []
    ∧ dom (GlobDiffResult.snapshot result') = dom Demo.first_snapshot
    ∧ trace st2
      = trace (globDiff (inl Demo.both_files) None (Demo.start Demo.two_files)).2
        ++ events
    ∧ ∀ path, EvReadFile path ∉ events.
Proof.
  apply (globDiff_with_returned_snapshot (inl Demo.both_files) None
           (Demo.start Demo.two_files)
           (globDiff (inl Demo.both_files) None (Demo.start Demo.two_files)).2
           (GlobDiffResult.mk Demo.first_snapshot
              [ {| type := Create; filePath := "/work/a.js" |};
                {| type := Create; filePath := "/work/b.js" |} ])).
  - vm_compute. reflexivity.
  - vm_compute. reflexivity.
  - right. apply (bool_decide_unpack _). vm_compute. reflexivity.
Defined.
